(** * Temporian: operator graph and per-index-group evaluation

    A shallow embedding of the Python sources
      - temporian/implementation/numpy/operators/since_last.py
      - temporian/core/operators/rename.py
      - temporian/core/operators/calendar/base.py
      - temporian/core/operators/window/moving_min.py
      - temporian/implementation/numpy/data/event.py
    Python dicts are finite maps, numpy float64 buffers are lists of
    primitive binary64 floats, raised exceptions are an explicit error
    result. *)

From Stdlib Require Import ZArith List Bool Lia.
From Stdlib Require Import Floats.PrimFloat Floats.SpecFloat Floats.FloatOps.
From Stdlib Require Floats.FloatAxioms.
From stdpp Require Import base option list gmap strings pretty sorting.

Import ListNotations.
Local Open Scope Z_scope.

(** ** Python exceptions and fallible computations *)

Module Py.

(** The built-in exception classes the embedded code raises.  A
    [ValueError] carries its message; the argument of a [KeyError] (the
    missing key) is not recorded.  [SchemaError] and [InvalidArgument] are
    the construction errors of the specification's taxonomy; no embedded
    source function raises them. *)
Inductive exception : Type :=
| ValueError (msg : string)
| KeyError
| IndexError
| TypeError
| AssertionError
| SchemaError
| InvalidArgument.

Inductive result (A : Type) : Type :=
| Ok (a : A)
| Raise (e : exception).
Arguments Ok {A} a.
Arguments Raise {A} e.

Definition bind {A B} (r : result A) (k : A -> result B) : result B :=
  match r with
  | Ok a => k a
  | Raise e => Raise e
  end.

Definition is_ok {A} (r : result A) : bool :=
  match r with Ok _ => true | Raise _ => false end.

(** [d[k]] on a dict: a missing key raises [KeyError]. *)
Definition getitem `{Countable K} {V} (d : gmap K V) (k : K) : result V :=
  match d !! k with
  | Some v => Ok v
  | None => Raise KeyError
  end.

(** A [for] loop over a list whose body may raise; the accumulator is the
    state the body mutates. *)
Fixpoint for_each {A S} (body : S -> A -> result S) (xs : list A) (s : S)
  : result S :=
  match xs with
  | [] => Ok s
  | x :: rest => bind (body s x) (for_each body rest)
  end.

End Py.

(** [result] is used through stdpp's monad notations [x ← c; k]. *)
#[global] Instance result_ret : MRet Py.result := @Py.Ok.
#[global] Instance result_bind : MBind Py.result :=
  fun A B k r => Py.bind r k.

(** ** Index keys *)

(** One component of an index key: the value of one index column. *)
Inductive index_value : Type :=
| IInt (z : Z)
| IStr (s : string).

#[global] Instance index_value_eq_dec : EqDecision index_value.
Proof. solve_decision. Defined.

#[global] Instance index_value_countable : Countable index_value.
Proof.
  refine (inj_countable'
            (fun v => match v with IInt z => inl z | IStr s => inr s end)
            (fun e => match e with inl z => IInt z | inr s => IStr s end) _).
  intros []; reflexivity.
Defined.

(** A Python tuple of index values. *)
Abbreviation index_key := (list index_value).

(** A sequence is ascending for [le] when each element is [le] its
    successor. *)
Fixpoint ascending_by {A} (le : A -> A -> bool) (a : list A) : bool :=
  match a with
  | [] => true
  | x :: rest =>
      match rest with
      | [] => true
      | y :: _ => le x y && ascending_by le rest
      end
  end.

(** ** numpy helpers on float64 buffers *)

Module Np.

Definition nan : float := PrimFloat.nan.

(** [np.diff(a)]: [a[1:] - a[:-1]]. *)
Fixpoint diff (a : list float) : list float :=
  match a with
  | [] => []
  | x :: rest =>
      match rest with
      | [] => []
      | y :: _ => PrimFloat.sub y x :: diff rest
      end
  end.

(** A buffer is ascending when each element is [<=] its successor. *)
Definition ascending (a : list float) : bool := ascending_by PrimFloat.leb a.

End Np.

(** ** The since-last operator (numpy implementation) *)

Module SinceLast.
Import Py.

(** One index group of an [EventSet]: its feature buffers and timestamps. *)
Record IndexData : Type := mkIndexData {
  features : list (list float);
  timestamps : list float;
}.

Record EventSet : Type := mkEventSet {
  data : gmap index_key IndexData;
  feature_names : list string;
  index_names : list string;
  is_unix_timestamp : bool;
}.

(** [output_event[index_key] = index_data]. *)
Definition setitem (e : EventSet) (k : index_key) (d : IndexData)
  : EventSet :=
  mkEventSet (<[k := d]> (data e)) (feature_names e) (index_names e)
             (is_unix_timestamp e).

(** [input.iterindex()]: the (key, group) pairs of the event set. *)
Definition iterindex (e : EventSet) : list (index_key * IndexData) :=
  map_to_list (data e).

(** The core operator, as far as the implementation reads it. *)
Record SinceLast : Type := mkSinceLast { has_sampling : bool }.

(** Modelled from the spec: [operators_cc.since_last], the native routine
    of [temporian/implementation/numpy_cc], is not among the sources.  Per
    group it merge-walks the ascending input timestamps against the
    ascending query timestamps with one forward pointer and yields, for
    each query [t], the time elapsed since the most recent input
    timestamp [t' <= t], or NaN when there is none. *)
Fixpoint advance (last : option float) (inp : list float) (t : float)
  : option float * list float :=
  match inp with
  | [] => (last, [])
  | x :: rest =>
      if PrimFloat.leb x t then advance (Some x) rest t else (last, inp)
  end.

Fixpoint since_last_walk (last : option float) (inp queries : list float)
  : list float :=
  match queries with
  | [] => []
  | t :: qs =>
      let '(last', inp') := advance last inp t in
      match last' with
      | Some t' => PrimFloat.sub t t'
      | None => Np.nan
      end :: since_last_walk last' inp' qs
  end.

Definition since_last_cc (inp queries : list float) : list float :=
  since_last_walk None inp queries.

(** The sampling timestamps the loop reads for group [k]. *)
Definition sampling_of (sampling : option EventSet) (k : index_key)
  : option (list float) :=
  s ← sampling; timestamps <$> data s !! k.

(** A flat event set (one group, empty index key) with the given
    timestamps and no feature. *)
Definition flat_event_set (ts : list float) : EventSet :=
  mkEventSet {[ [] := mkIndexData [] ts ]} [] [] false.

Section Call.
(** The native routine [operators_cc.since_last]; the group handling
    below does not depend on what it computes. *)
Variable operators_cc_since_last : list float -> list float -> list float.

(** The body of the loop over [input.iterindex()]. *)
Definition loop_body (sampling : option EventSet) (output_event : EventSet)
           (item : index_key * IndexData) : result EventSet :=
  let '(index_key, index_data) := item in
  match sampling with
  | Some sampling =>
      group ← getitem (data sampling) index_key;
      let sampling_timestamps := timestamps group in
      let feature_values :=
        operators_cc_since_last (timestamps index_data)
                                sampling_timestamps in
      mret (setitem output_event index_key
                    (mkIndexData [feature_values] sampling_timestamps))
  | None =>
      let feature_values :=
        Np.nan :: Np.diff (timestamps index_data) in
      mret (setitem output_event index_key
                    (mkIndexData [feature_values] (timestamps index_data)))
  end.

(** [SinceLastNumpyImplementation.__call__]. *)
Definition call (operator : SinceLast) (input : EventSet)
           (sampling : option EventSet) : result (gmap string EventSet) :=
  if negb (eqb (has_sampling operator) (bool_decide (is_Some sampling)))
  then Raise AssertionError
  else
    let output_event :=
      mkEventSet ∅ ["since_last"%string] (index_names input)
                 (is_unix_timestamp input) in
    output_event ← for_each (loop_body sampling) (iterindex input)
                            output_event;
    mret ({[ "output"%string := output_event ]} : gmap string EventSet).

(** What one group of the output holds, from that group's input
    timestamps and (with a sampling) that group's sampling timestamps. *)
Definition eval_group (sampling_timestamps : option (list float))
           (input_timestamps : list float) : IndexData :=
  match sampling_timestamps with
  | Some st => mkIndexData [operators_cc_since_last input_timestamps st] st
  | None =>
      mkIndexData [Np.nan :: Np.diff input_timestamps] input_timestamps
  end.

(** The output group of key [k] in a result of [call]. *)
Definition output_group (r : result (gmap string EventSet))
           (k : index_key) : option IndexData :=
  match r with
  | Ok outs => out ← outs !! "output"%string; data out !! k
  | Raise _ => None
  end.

End Call.

(** A buffer all of whose elements are missing (NaN). *)
Definition all_missing (d : IndexData) : Prop :=
  Forall (Forall (fun v => v = Np.nan)) (features d).

(** Event sets with one integer index level, used in the examples. *)
Definition group_1 : EventSet :=
  mkEventSet {[ [IInt 1] := mkIndexData [] [1; 2]%float ]} [] ["id"%string]
             false.

Definition group_1_and_2 : EventSet :=
  mkEventSet {[ [IInt 1] := mkIndexData [] [1; 2]%float;
                [IInt 2] := mkIndexData [] [5]%float ]} [] ["id"%string]
             false.

Definition sampling_1 : EventSet :=
  mkEventSet {[ [IInt 1] := mkIndexData [] [3]%float ]} [] ["id"%string]
             false.

Definition sampling_1_and_2 : EventSet :=
  mkEventSet {[ [IInt 1] := mkIndexData [] [3]%float;
                [IInt 2] := mkIndexData [] [7]%float ]} [] ["id"%string]
             false.

(** The implementation with the native routine as specified. *)
Definition SinceLastNumpyImplementation_call := call since_last_cc.

End SinceLast.

(** ** Schema types of the operator graph *)

Module Core.
Import Py.

Inductive DType : Type := FLOAT32 | FLOAT64 | INT32 | INT64 | STRING.

#[global] Instance DType_eq_dec : EqDecision DType.
Proof. solve_decision. Defined.

Module IndexLevel.
Record t : Type := mk { name : string; dtype : DType }.
End IndexLevel.

(** A [Sampling] object.  The objects of the graph are immutable once
    built; [id] is the identity of the object (two samplings are the same
    object when they have the same [id]), [creator] the identity of the
    operator that built it. *)
Module Sampling.
Record t : Type := mk {
  id : nat;
  index_levels : list IndexLevel.t;
  creator : option nat;
  is_unix_timestamp : bool;
}.
End Sampling.

Module Feature.
Record t : Type := mk {
  name : string;
  dtype : DType;
  sampling : Sampling.t;
  creator : option nat;
}.
End Feature.

Module Event.
Record t : Type := mk {
  features : list Feature.t;
  sampling : Sampling.t;
  creator : option nat;
}.

(** [event.index_names]: the names of the sampling's index levels. *)
Definition index_names (e : t) : list string :=
  IndexLevel.name <$> Sampling.index_levels (sampling e).
End Event.

(** Values a caller can put in a rename dict: a string, an int, [None], or
    a list of strings, which is not hashable. *)
Inductive pyvalue : Type :=
| PStr (s : string)
| PInt (z : Z)
| PNone
| PList (items : list string).

#[global] Instance pyvalue_eq_dec : EqDecision pyvalue.
Proof. solve_decision. Defined.

(** [isinstance(value, str)]. *)
Definition is_str (v : pyvalue) : bool :=
  match v with PStr _ => true | _ => false end.

(** Whether [hash(value)] returns: a list has no hash. *)
Definition hashable (v : pyvalue) : bool :=
  match v with PList _ => false | _ => true end.

(** Truthiness of a value: [bool(value)]. *)
Definition truthy (v : pyvalue) : bool :=
  match v with
  | PStr s => negb (bool_decide (s = ""%string))
  | PInt z => negb (z =? 0)
  | PNone => false
  | PList items => negb (bool_decide (items = []))
  end.

(** The string held by a value that is a string. *)
Definition str_of (v : pyvalue) : string :=
  match v with PStr s => s | _ => ""%string end.

(** Attribute values of an operator. *)
Inductive attribute : Type :=
| AttrMap (m : gmap string pyvalue)
| AttrFloat (x : float).

Inductive attribute_type : Type := MAP_STR_STR | FLOAT_64.

(** [pb.OperatorDef]: the descriptor of an operator class. *)
Module OperatorDef.
Record t : Type := mk {
  key : string;
  attributes : list (string * attribute_type * bool);
  inputs : list string;
  outputs : list string;
}.
End OperatorDef.

(** Modelled from the spec: the base class [Operator] of
    [temporian/core/operators/base.py] is not among the sources.  An
    operator is a graph vertex with its named inputs, named outputs and
    attributes; [add_input], [add_output] and [add_attribute] record one
    entry each. *)
Module Operator.
Record t : Type := mk {
  id : nat;
  inputs : gmap string Event.t;
  outputs : gmap string Event.t;
  attributes : gmap string attribute;
}.

Definition add_input (self : t) (key : string) (e : Event.t) : t :=
  mk (id self) (<[key := e]> (inputs self)) (outputs self) (attributes self).

Definition add_output (self : t) (key : string) (e : Event.t) : t :=
  mk (id self) (inputs self) (<[key := e]> (outputs self)) (attributes self).

Definition add_attribute (self : t) (key : string) (a : attribute) : t :=
  mk (id self) (inputs self) (outputs self) (<[key := a]> (attributes self)).
End Operator.

(** Object identities handed out so far: the next operator and the next
    sampling to be built get these numbers. *)
Record Alloc : Type := mkAlloc { next_operator : nat; next_sampling : nat }.

(** A construction step: it may build objects and it may raise. *)
Definition M (A : Type) : Type := Alloc -> result (A * Alloc).

#[global] Instance M_ret : MRet M := fun A a st => Ok (a, st).
#[global] Instance M_bind : MBind M :=
  fun A B k m st =>
    match m st with
    | Ok (a, st') => k a st'
    | Raise e => Raise e
    end.

Definition raise {A} (e : exception) : M A := fun _ => Raise e.

(** Lifting of a computation that builds nothing. *)
Definition lift {A} (r : result A) : M A :=
  fun st => match r with Ok a => Ok (a, st) | Raise e => Raise e end.

(** Modelled from the spec: [Operator.__init__], which the subclasses call
    as [super().__init__()]: a new operator object with nothing attached. *)
Definition Operator_init : M Operator.t :=
  fun st =>
    Ok (Operator.mk (next_operator st) ∅ ∅ ∅,
        mkAlloc (S (next_operator st)) (next_sampling st)).

(** [Sampling(index_levels=..., creator=..., is_unix_timestamp=...)]: a new
    sampling object. *)
Definition Sampling_new (index_levels : list IndexLevel.t)
           (creator : option nat) (is_unix_timestamp : bool)
  : M Sampling.t :=
  fun st =>
    Ok (Sampling.mk (next_sampling st) index_levels creator is_unix_timestamp,
        mkAlloc (next_operator st) (S (next_sampling st))).

(** An attribute value has the declared attribute type. *)
Definition attribute_has_type (a : attribute) (ty : attribute_type) : bool :=
  match a, ty with
  | AttrMap _, MAP_STR_STR => true
  | AttrFloat _, FLOAT_64 => true
  | _, _ => false
  end.

(** Modelled from the spec: [Operator.check()] is not among the sources.
    It validates the attached inputs, outputs and attributes against the
    descriptor of the class: the declared inputs and outputs are the
    attached ones, every declared attribute is attached with the declared
    type, and every feature of an output shares the sampling of its
    output.  A violation raises [SchemaError].  The further rules the
    specification names for [check()] (no duplicate feature names,
    supported dtypes) are not part of it: what is proved of a constructor
    beyond this check is stated for every check. *)
Definition definition_check (def : OperatorDef.t) (self : Operator.t)
  : result unit :=
  if forallb (fun k => bool_decide (is_Some (Operator.inputs self !! k)))
             (OperatorDef.inputs def)
     && forallb (fun k => bool_decide (k ∈ OperatorDef.inputs def))
                (map_to_list (Operator.inputs self)).*1
     && forallb (fun k => bool_decide (is_Some (Operator.outputs self !! k)))
                (OperatorDef.outputs def)
     && forallb (fun k => bool_decide (k ∈ OperatorDef.outputs def))
                (map_to_list (Operator.outputs self)).*1
     && forallb (fun '(k, ty, optional) =>
                   match Operator.attributes self !! k with
                   | Some a => attribute_has_type a ty
                   | None => optional
                   end)
                (OperatorDef.attributes def)
     && forallb (fun e =>
                   forallb (fun f =>
                              bool_decide (Sampling.id (Feature.sampling f)
                                           = Sampling.id (Event.sampling e)))
                           (Event.features e))
                (map_to_list (Operator.outputs self)).*2
  then Ok tt
  else Raise SchemaError.

End Core.

(** ** The rename operator *)

Module Rename.
Import Py Core.

(** The [features] and [index] arguments: [None], a single new name, or a
    dict from old to new names. *)
Inductive rename_arg : Type :=
| ArgNone
| ArgStr (s : string)
| ArgDict (d : gmap string pyvalue).

(** [bool(arg)], as tested by [if index:]. *)
Definition arg_truthy (a : rename_arg) : bool :=
  match a with
  | ArgNone => false
  | ArgStr s => truthy (PStr s)
  | ArgDict d => negb (bool_decide (d = ∅))
  end.

Definition values (d : gmap string pyvalue) : list pyvalue :=
  (map_to_list d).*2.

Definition keys (d : gmap string pyvalue) : list string :=
  (map_to_list d).*1.

(** The nested function [check_rename_dict] of [RenameOperator.__init__].
    [set(rename_dict.values())] hashes every value and raises [TypeError]
    on one that is not hashable. *)
Definition check_rename_dict (rename_dict : gmap string pyvalue)
           (event_names : list string) (dict_name : string)
  : result (gmap string pyvalue) :=
  if negb (forallb hashable (values rename_dict))
  then Raise TypeError
  else if negb (length (remove_dups (values rename_dict))
                =? length (values rename_dict))%nat
  then Raise (ValueError ("Duplicate values in " +:+ dict_name
                          +:+ ". Values must be unique."))
  else if negb (forallb is_str (values rename_dict))
  then Raise (ValueError ("Expected all values in " +:+ dict_name
                          +:+ " to be strings."))
  else if negb (forallb truthy (values rename_dict))
  then Raise (ValueError ("Expected all values in " +:+ dict_name
                          +:+ " to be non-empty."))
  else
    _ ← for_each (fun (_ : unit) key =>
                    if bool_decide (key ∈ event_names)
                    then Ok tt else Raise KeyError)
                 (keys rename_dict) tt;
    Ok rename_dict.

(** [d.get(name, name)] on a rename dict whose values are strings. *)
Definition renamed (d : gmap string pyvalue) (name : string) : string :=
  match d !! name with
  | Some v => str_of v
  | None => name
  end.

(** [RenameOperator.new_sampling]; [self_id] and [self_index] are [self]
    and [self.index]. *)
Definition new_sampling (self_id : nat) (self_index : gmap string pyvalue)
           (old_sampling : Sampling.t) : M Sampling.t :=
  let new_index_levels :=
    (fun level =>
       IndexLevel.mk (renamed self_index (IndexLevel.name level))
                     (IndexLevel.dtype level))
      <$> Sampling.index_levels old_sampling in
  Sampling_new new_index_levels (Some self_id)
               (Sampling.is_unix_timestamp old_sampling).

(** [RenameOperator.build_op_definition]. *)
Definition build_op_definition : OperatorDef.t :=
  OperatorDef.mk "RENAME"
                 [("features"%string, MAP_STR_STR, false);
                  ("index"%string, MAP_STR_STR, false)]
                 ["event"%string] ["event"%string].

(** The part of [__init__] that turns the [features] argument into
    [self.features]. *)
Definition features_dict (event : Event.t) (features : rename_arg)
  : result (gmap string pyvalue) :=
  match features with
  | ArgStr features =>
      if negb (length (Event.features event) =? 1)%nat
      then Raise (ValueError
                    ("Expected event to have only one feature when passed a"
                     +:+ " single string. Got "
                     +:+ pretty (length (Event.features event))
                     +:+ " features" +:+ " instead."))
      else if negb (truthy (PStr features))
      then Raise (ValueError "Expected feature to be a non-empty string.")
      else
        match Event.features event with
        | only_feature :: _ =>
            Ok {[ Feature.name only_feature := PStr features ]}
        | [] => Raise IndexError
        end
  | ArgDict features =>
      let feature_names := Feature.name <$> Event.features event in
      check_rename_dict features feature_names "features"
  | ArgNone => Ok ∅
  end.

(** The part of [__init__] that turns the [index] argument into
    [self.index]. *)
Definition index_dict (event_index_names : list string) (index : rename_arg)
  : result (gmap string pyvalue) :=
  match index with
  | ArgStr index =>
      if negb (length event_index_names =? 1)%nat
      then Raise (ValueError
                    ("Expected event to have only one index when passed a"
                     +:+ " single string in index. Got"
                     +:+ " " +:+ pretty (length event_index_names)
                     +:+ " indexes instead."))
      else if negb (truthy (PStr index))
      then Raise (ValueError "Expected index to be a non-empty string.")
      else
        match event_index_names with
        | only_index_name :: _ => Ok {[ only_index_name := PStr index ]}
        | [] => Raise IndexError
        end
  | ArgDict index => check_rename_dict index event_index_names "index"
  | ArgNone => Ok ∅
  end.

(** The output features of the list comprehension of [__init__]. *)
Definition output_features (self_id : nat)
           (self_features : gmap string pyvalue)
           (output_sampling : Sampling.t) (event : Event.t)
  : list Feature.t :=
  (fun f =>
     Feature.mk (renamed self_features (Feature.name f)) (Feature.dtype f)
                output_sampling (Some self_id))
    <$> Event.features event.

(** What is wrong with a [features] or [index] argument, given the names
    of the node it renames. *)
Definition arg_defect (names : list string) (a : rename_arg) : Prop :=
  match a with
  | ArgNone => False
  | ArgStr s => length names ≠ 1%nat ∨ s = ""%string
  | ArgDict d =>
      ¬ NoDup (values d)
      ∨ (∃ v, v ∈ values d ∧ (is_str v = false ∨ v = PStr ""))
      ∨ (∃ k, k ∈ keys d ∧ k ∉ names)
  end.


(** The operator [__init__] has wired when it reaches [self.check()], and
    the identities in use at that point. *)
Definition wired (st : Alloc) (event : Event.t) (index : rename_arg)
           (self_features self_index : gmap string pyvalue)
  : Operator.t * Alloc :=
  let self_id := next_operator st in
  let output_sampling :=
    if arg_truthy index
    then Sampling.mk (next_sampling st)
           ((fun level =>
               IndexLevel.mk (renamed self_index (IndexLevel.name level))
                             (IndexLevel.dtype level))
              <$> Sampling.index_levels (Event.sampling event))
           (Some self_id)
           (Sampling.is_unix_timestamp (Event.sampling event))
    else Event.sampling event in
  (Operator.mk self_id {[ "event"%string := event ]}
     {[ "event"%string :=
          Event.mk (output_features self_id self_features output_sampling
                                    event)
                   output_sampling (Some self_id) ]}
     (<["index"%string := AttrMap self_index]>
        {[ "features"%string := AttrMap self_features ]}),
   mkAlloc (S self_id)
           (if arg_truthy index then S (next_sampling st)
            else next_sampling st)).

Section Init.
(** [Operator.check], of the base class. *)
Variable check : Operator.t -> result unit.

(** [RenameOperator.__init__]. *)
Definition RenameOperator_init (event : Event.t)
           (features index : rename_arg) : M Operator.t :=
  self ← Operator_init;
  self_features ← lift (features_dict event features);
  let event_index_names := Event.index_names event in
  self_index ← lift (index_dict event_index_names index);
  let self := Operator.add_attribute self "features" (AttrMap self_features) in
  let self := Operator.add_attribute self "index" (AttrMap self_index) in
  let self := Operator.add_input self "event" event in
  output_sampling ←
    (if arg_truthy index
     then new_sampling (Operator.id self) self_index (Event.sampling event)
     else mret (Event.sampling event));
  let self :=
    Operator.add_output
      self "event"
      (Event.mk (output_features (Operator.id self) self_features
                                 output_sampling event)
                output_sampling (Some (Operator.id self))) in
  _ ← lift (check self);
  mret self.

(** The function [rename]. *)
Definition rename (event : Event.t) (features index : rename_arg)
  : M Event.t :=
  operator ← RenameOperator_init event features index;
  lift (getitem (Operator.outputs operator) "event"%string).

End Init.

(** The result of a constructor that has wired [operator] and ends with
    [self.check()]: the value [a] if the check returns, the exception of
    the check otherwise. *)
Definition checked {A} (check : Operator.t -> result unit)
           (operator : Operator.t) (a : A) : result A :=
  match check operator with
  | Ok _ => Ok a
  | Raise e => Raise e
  end.

(** The class with the check against its descriptor. *)
Definition RenameOperator :=
  RenameOperator_init (definition_check build_op_definition).

(** The function [rename] on the class with the check against its
    descriptor. *)
Definition rename_node := rename (definition_check build_op_definition).

(** The output node [__init__] wires. *)
Definition wired_output (st : Alloc) (event : Event.t) (index : rename_arg)
           (self_features self_index : gmap string pyvalue) : Event.t :=
  let self_id := next_operator st in
  let output_sampling :=
    if arg_truthy index
    then Sampling.mk (next_sampling st)
           ((fun level =>
               IndexLevel.mk (renamed self_index (IndexLevel.name level))
                             (IndexLevel.dtype level))
              <$> Sampling.index_levels (Event.sampling event))
           (Some self_id)
           (Sampling.is_unix_timestamp (Event.sampling event))
    else Event.sampling event in
  Event.mk (output_features self_id self_features output_sampling event)
           output_sampling (Some self_id).

(** A node with the features ["a"] and ["c"] and one index level
    ["user"], whose sampling is the object 0; the identities in use once
    it is built. *)
Definition sampling_user : Sampling.t :=
  Sampling.mk 0 [IndexLevel.mk "user" INT64] None false.

Definition event_a_c : Event.t :=
  Event.mk [Feature.mk "a" FLOAT64 sampling_user None;
            Feature.mk "c" INT32 sampling_user None]
           sampling_user None.

Definition alloc_1 : Alloc := mkAlloc 0 1.

(** Modelled from the spec: the numpy implementation of rename is not among
    the sources.  Evaluation renames the features and index levels of the
    event set and leaves every group (timestamps and feature buffers)
    as it is. *)
Definition RenameNumpyImplementation_call
           (self_features self_index : gmap string pyvalue)
           (event : SinceLast.EventSet) : SinceLast.EventSet :=
  SinceLast.mkEventSet
    (SinceLast.data event)
    (renamed self_features <$> SinceLast.feature_names event)
    (renamed self_index <$> SinceLast.index_names event)
    (SinceLast.is_unix_timestamp event).

End Rename.

(** ** Calendar operators *)

Module Calendar.
Import Py Core.

Section Init.
(** [Operator.check], of the base class. *)
Variable check : Operator.t -> result unit.
(** The abstract class properties a calendar operator declares. *)
Variable operator_def_key : string.
Variable output_feature_name : string.

(** [BaseCalendarOperator.__init__]. *)
Definition BaseCalendarOperator_init (sampling : Event.t) : M Operator.t :=
  self ← Operator_init;
  let self := Operator.add_input self "sampling" sampling in
  let output_feature :=
    Feature.mk output_feature_name INT32 (Event.sampling sampling)
               (Some (Operator.id self)) in
  let self :=
    Operator.add_output
      self "event"
      (Event.mk [output_feature] (Event.sampling sampling)
                (Some (Operator.id self))) in
  _ ← lift (check self);
  mret self.

(** [BaseCalendarOperator.build_op_definition]. *)
Definition build_op_definition : OperatorDef.t :=
  OperatorDef.mk operator_def_key [] ["sampling"%string] ["event"%string].

End Init.

(** A calendar operator class with the check against its descriptor. *)
Definition CalendarOperator (operator_def_key output_feature_name : string) :=
  BaseCalendarOperator_init
    (definition_check (build_op_definition operator_def_key))
    output_feature_name.

End Calendar.

(** ** Window operators: moving minimum *)

Module Window.
Import Py Core.

(** [MovingMinOperator.operator_def_key]. *)
Definition operator_def_key : string := "MOVING_MIN".

(** [MovingMinOperator.get_feature_dtype]. *)
Definition get_feature_dtype (feature : Feature.t) : DType :=
  Feature.dtype feature.

(** Modelled from the spec: [normalize_duration] of
    [temporian/core/data/duration.py] is not among the sources.  A window
    length must be strictly positive, else [InvalidArgument]. *)
Definition normalize_duration (duration : float) : result float :=
  if PrimFloat.ltb 0 duration then Ok duration else Raise InvalidArgument.

#[global] Instance IndexLevel_eq_dec : EqDecision IndexLevel.t.
Proof. solve_decision. Defined.

Section Base.
(** [Operator.check], of the base class. *)
Variable check : Operator.t -> result unit.
(** The method [get_feature_dtype] of the subclass. *)
Variable feature_dtype : Feature.t -> DType.

(** Modelled from the spec: [BaseWindowOperator.__init__] of
    [temporian/core/operators/window/base.py] is not among the sources.
    The operator has the inputs [input] and, when given, [sampling], and
    the attribute [window_length]; index levels of [input] and [sampling]
    that differ are a [SchemaError]; the output has one feature per input
    feature, with the dtype the subclass gives for it, and the sampling of
    [sampling] if provided, else that of [input]. *)
Definition BaseWindowOperator_init (input : Event.t) (window_length : float)
           (sampling : option Event.t) : M Operator.t :=
  self ← Operator_init;
  let self :=
    Operator.add_attribute self "window_length" (AttrFloat window_length) in
  let self := Operator.add_input self "input" input in
  '(self, effective_sampling) ←
    match sampling with
    | Some sampling =>
        if bool_decide (Sampling.index_levels (Event.sampling sampling)
                        = Sampling.index_levels (Event.sampling input))
        then mret (Operator.add_input self "sampling" sampling,
                   Event.sampling sampling)
        else raise SchemaError
    | None => mret (self, Event.sampling input)
    end;
  let output_features :=
    (fun f => Feature.mk (Feature.name f) (feature_dtype f)
                         effective_sampling (Some (Operator.id self)))
      <$> Event.features input in
  let self :=
    Operator.add_output
      self "output"
      (Event.mk output_features effective_sampling
                (Some (Operator.id self))) in
  _ ← lift (check self);
  mret self.

End Base.

(** The class [MovingMinOperator]. *)
Definition MovingMinOperator (check : Operator.t -> result unit) :=
  BaseWindowOperator_init check get_feature_dtype.

(** The function [moving_min]. *)
Definition moving_min (check : Operator.t -> result unit) (input : Event.t)
           (window_length : float) (sampling : option Event.t) : M Event.t :=
  window_length ← lift (normalize_duration window_length);
  operator ← MovingMinOperator check input window_length sampling;
  lift (getitem (Operator.outputs operator) "output"%string).

(** *** The sliding-window evaluation *)

Section Sliding.
(** Timestamps with their order, the lower edge [t - window_length] of the
    window at [t], and values with their order and missing values. *)
Context {T V : Type}.
Variable tleb : T -> T -> bool.
Variable lower : T -> T.
Variable vleb : V -> V -> bool.
Variable is_missing : V -> bool.
Variable missing : V.

(** Modelled from the spec: the window evaluation of the numpy
    implementation is not among the sources.  The window at [t] holds the
    input events with timestamp [t'], [lower t <= t' <= t]; the reducer is
    applied to the non-missing values of the window and an empty window
    gives the missing value.  The brute-force evaluation recomputes every
    window from the whole input. *)
Definition in_window (t : T) (e : T * V) : bool :=
  tleb (lower t) e.1 && tleb e.1 t.

Definition min_step (acc : option V) (e : T * V) : option V :=
  if is_missing e.2 then acc
  else match acc with
       | None => Some e.2
       | Some m => if vleb m e.2 then Some m else Some e.2
       end.

Definition reduce_min (window : list (T * V)) : V :=
  default missing (foldl min_step None window).

Definition moving_min_naive (input : list (T * V)) (sampling : list T)
  : list V :=
  (fun t => reduce_min (List.filter (in_window t) input)) <$> sampling.

(** Modelled from the spec: the evaluator of the algorithmic requirement.
    The sampling timestamps are visited in ascending order; input events
    enter once, when their timestamp is reached, into a deque of candidate
    minima kept in increasing order of value (entering pops from the back
    the candidates with a larger value); expired candidates, with timestamp
    before [lower t], leave from the front and are never looked at again;
    the front is the minimum of the window. *)
Fixpoint pop_back_while (p : T * V -> bool) (dq : list (T * V))
  : list (T * V) :=
  match dq with
  | [] => []
  | e :: rest =>
      match pop_back_while p rest with
      | [] => if p e then [] else [e]
      | rest' => e :: rest'
      end
  end.

Fixpoint pop_front_while (p : T * V -> bool) (dq : list (T * V))
  : list (T * V) :=
  match dq with
  | [] => []
  | e :: rest => if p e then pop_front_while p rest else dq
  end.

Definition push (dq : list (T * V)) (e : T * V) : list (T * V) :=
  if is_missing e.2 then dq
  else pop_back_while (fun b => negb (vleb b.2 e.2)) dq ++ [e].

Fixpoint enter (t : T) (pending dq : list (T * V))
  : list (T * V) * list (T * V) :=
  match pending with
  | [] => ([], dq)
  | e :: rest =>
      if tleb e.1 t then enter t rest (push dq e) else (pending, dq)
  end.

Definition expired (t : T) (e : T * V) : bool := negb (tleb (lower t) e.1).

Fixpoint sliding (pending dq : list (T * V)) (sampling : list T) : list V :=
  match sampling with
  | [] => []
  | t :: sampling' =>
      let '(pending', dq) := enter t pending dq in
      let dq := pop_front_while (expired t) dq in
      match dq with
      | [] => missing
      | front :: _ => front.2
      end :: sliding pending' dq sampling'
  end.

Definition moving_min_sliding (input : list (T * V)) (sampling : list T)
  : list V :=
  sliding input [] sampling.

(** The candidates a sequence of events leaves in an empty deque. *)
Definition candidates (events : list (T * V)) : list (T * V) :=
  foldl push [] events.

(** The deque agrees with the brute-force accumulator: both are empty, or
    the front holds the accumulated minimum and is below every other
    candidate. *)
Definition agree (dq : list (T * V)) (acc : option V) : Prop :=
  match dq, acc with
  | [], None => True
  | front :: rest, Some m =>
      front.2 = m /\ Forall (fun e => vleb front.2 e.2 = true) rest
  | _, _ => False
  end.

(** The state before the sampling timestamp [t] is visited: the input is
    made of events that have expired for good, of the events [window] whose
    candidates are the deque (they are not beyond [t]) and of the pending
    events. *)
Definition ready (t : T) (input pending dq : list (T * V)) : Prop :=
  exists gone window,
    input = gone ++ window ++ pending /\
    Forall (fun e => expired t e = true) gone /\
    Forall (fun e => tleb e.1 t = true) window /\
    dq = candidates window.

(** [m] is the minimum of the non-missing values of [window]: the missing
    value if there is none, else a non-missing value of the window that is
    below every non-missing value of the window. *)
Definition is_window_min (window : list (T * V)) (m : V) : Prop :=
  (Forall (fun e => is_missing e.2 = true) window /\ m = missing) \/
  (is_missing m = false /\
   (exists e, e ∈ window /\ e.2 = m) /\
   Forall (fun e => is_missing e.2 = false -> vleb m e.2 = true) window).

End Sliding.

(** The evaluation of one feature buffer of one index group on float64
    timestamps and values: missing values are NaN. *)
Definition moving_min_buffer (window_length : float)
           (timestamps values sampling : list float) : list float :=
  moving_min_sliding PrimFloat.leb
    (fun t => PrimFloat.sub t window_length)
    PrimFloat.leb PrimFloat.is_nan Np.nan (zip timestamps values) sampling.

Definition moving_min_buffer_naive (window_length : float)
           (timestamps values sampling : list float) : list float :=
  moving_min_naive PrimFloat.leb
    (fun t => PrimFloat.sub t window_length)
    PrimFloat.leb PrimFloat.is_nan Np.nan (zip timestamps values) sampling.

(** The window of the sampling timestamp [t], by brute force. *)
Definition window_at (window_length : float) (timestamps values : list float)
           (t : float) : list (float * float) :=
  List.filter
    (in_window PrimFloat.leb (fun t => PrimFloat.sub t window_length) t)
    (zip timestamps values).

(** Modelled from the spec: the numpy implementation of the moving minimum
    is not among the sources.  Each index group and each feature is
    evaluated on its own; the output groups are those of [sampling] if
    provided, else those of [input], with the sampling timestamps; a group
    of [sampling] that [input] does not have is evaluated on an empty
    input. *)
Definition eval_group (window_length : float) (feature_count : nat)
           (group : option SinceLast.IndexData) (sampling : list float)
  : SinceLast.IndexData :=
  let group :=
    default (SinceLast.mkIndexData (replicate feature_count []) []) group in
  SinceLast.mkIndexData
    ((fun values =>
        moving_min_buffer window_length (SinceLast.timestamps group) values
                          sampling)
       <$> SinceLast.features group)
    sampling.

Definition MovingMinNumpyImplementation_call (window_length : float)
           (input : SinceLast.EventSet) (sampling : option SinceLast.EventSet)
  : SinceLast.EventSet :=
  let feature_count := length (SinceLast.feature_names input) in
  SinceLast.mkEventSet
    match sampling with
    | Some sampling =>
        map_imap
          (fun k s =>
             Some (eval_group window_length feature_count
                              (SinceLast.data input !! k)
                              (SinceLast.timestamps s)))
          (SinceLast.data sampling)
    | None =>
        (fun group =>
           eval_group window_length feature_count (Some group)
                      (SinceLast.timestamps group))
          <$> SinceLast.data input
    end
    (SinceLast.feature_names input)
    (SinceLast.index_names input)
    (SinceLast.is_unix_timestamp input).

(** The timestamps at which the group [k], with data [group] in the input,
    is evaluated. *)
Definition sampling_timestamps (sampling : option SinceLast.EventSet)
           (k : index_key) (group : SinceLast.IndexData)
  : option (list float) :=
  match sampling with
  | Some sampling => SinceLast.timestamps <$> SinceLast.data sampling !! k
  | None => Some (SinceLast.timestamps group)
  end.

(** A flat event set with one feature. *)
Definition flat_feature_event_set (timestamps values : list float)
  : SinceLast.EventSet :=
  SinceLast.mkEventSet {[ [] := SinceLast.mkIndexData [values] timestamps ]}
                       ["f"%string] [] false.

(** A node with two features and no index level. *)
Definition node_f_g : Event.t :=
  let s := Sampling.mk 0 [] None false in
  Event.mk [Feature.mk "f" FLOAT32 s None; Feature.mk "g" INT64 s None]
           s None.

End Window.

(** ** The tabular boundary: pandas frames and numpy events *)

Module Tabular.
Import Py.

(** A Python dict whose iteration order (the insertion order) matters: an
    association list with one entry per key. *)
Section OrderedDict.
Context {K V : Type} `{EqDecision K}.

Fixpoint odict_get (k : K) (d : list (K * V)) : option V :=
  match d with
  | [] => None
  | (k', v) :: rest => if decide (k' = k) then Some v else odict_get k rest
  end.

(** [d[k] = v]: a present key keeps its place, a new key goes last. *)
Fixpoint odict_set (k : K) (v : V) (d : list (K * V)) : list (K * V) :=
  match d with
  | [] => [(k, v)]
  | (k', v') :: rest =>
      if decide (k' = k) then (k, v) :: rest
      else (k', v') :: odict_set k v rest
  end.

End OrderedDict.

(** [Index.unique()]: the distinct values, in order of first appearance. *)
Definition unique {A} `{EqDecision A} (l : list A) : list A :=
  foldl (fun seen x => if decide (x ∈ seen) then seen else seen ++ [x]) [] l.

(** An element of a numpy buffer or a cell of a frame: a float64, an
    int64, or another Python object (a [str], say), which pandas keeps in
    a column of dtype [object]. *)
Inductive scalar : Type :=
| F64 (x : float)
| I64 (z : Z)
| Obj (s : string).

(** The numpy dtypes of the columns of such cells. *)
Inductive np_dtype : Type := float64 | int64 | object_.

(** [dtype.type in DTYPE_MAPPING]: of these dtypes, the mapping has
    float64 and int64. *)
Definition in_DTYPE_MAPPING (dtype : np_dtype) : bool :=
  match dtype with
  | float64 | int64 => true
  | object_ => false
  end.

(** The dtype of a column: float64 when its cells are floats, int64 when
    they are ints, [object] otherwise. *)
Definition dtype_of (cells : list scalar) : np_dtype :=
  if forallb (fun c => match c with F64 _ => true | _ => false end) cells
  then float64
  else if forallb (fun c => match c with I64 _ => true | _ => false end) cells
  then int64
  else object_.

(** A numpy array: flat, with its dtype and its elements, or with two
    dimensions. *)
Inductive ndarray : Type :=
| Flat (dtype : np_dtype) (elements : list scalar)
| Matrix.

(** A row of a frame whose index is the index levels followed by the
    ["timestamp"] level: the values of the index levels, the timestamp, and
    one cell per column. *)
Record Row : Type := mkRow {
  row_index : index_key;
  row_timestamp : float;
  row_cells : list scalar;
}.

Record DataFrame : Type := mkDataFrame {
  index_names : list string;
  columns : list string;
  rows : list Row;
}.

Record NumpyFeature : Type := mkNumpyFeature {
  name : string;
  data : list scalar;
}.

Record NumpySampling : Type := mkNumpySampling {
  names : list string;
  sampling_data : list (index_key * list float);
}.

Record NumpyEvent : Type := mkNumpyEvent {
  event_data : list (index_key * list NumpyFeature);
  sampling : NumpySampling;
}.

(** [NumpyFeature.__init__]: an array with more than one dimension and a
    dtype outside [DTYPE_MAPPING] are rejected (the dtype [np.string_],
    which the constructor lets pass, is none of a pandas column). *)
Definition NumpyFeature_init (name : string) (data : ndarray)
  : result NumpyFeature :=
  match data with
  | Matrix =>
      Raise (ValueError
               ("NumpyFeatures can only be created from flat arrays. Passed"
                +:+ " input's shape: 2"))
  | Flat dtype elements =>
      if in_DTYPE_MAPPING dtype
      then Ok (mkNumpyFeature name elements)
      else Raise (ValueError
                    ("Unsupported dtype object for NumpyFeature."
                     +:+ " Supported dtypes: dict_keys([<class"
                     +:+ " 'numpy.float64'>, <class 'numpy.float32'>,"
                     +:+ " <class 'numpy.int64'>, <class 'numpy.int32'>])"))
  end.

(** [NumpyEvent.feature_names]. *)
Definition feature_names (event : NumpyEvent) : list string :=
  match event_data event with
  | [] => []
  | (_, first_features) :: _ => name <$> first_features
  end.

(** [df.groupby(names).get_group(index)]: the rows of the group, in the
    order of the frame. *)
Definition get_group (df : DataFrame) (index : index_key) : list Row :=
  List.filter (fun r => bool_decide (row_index r = index)) (rows df).

(** [columns[column_name].to_numpy()] for the column at position [j]. *)
Definition column_to_numpy (j : nat) (group : list Row) : list scalar :=
  (fun r => default (F64 Np.nan) (row_cells r !! j)) <$> group.

(** [columns[column_name].to_numpy()] for the column at position [j] of
    the group: the cells of the column, with the dtype the column has in
    the frame; when the frame has the name [column_name] more than once,
    the selection is the frame of all the columns of this name, and its
    array has two dimensions. *)
Definition column_array (df : DataFrame) (index_group : list Row) (j : nat)
           (column_name : string) : ndarray :=
  if bool_decide (length (filter (fun c => c = column_name) (columns df))
                  = 1%nat)
  then Flat (dtype_of (column_to_numpy j (rows df)))
            (column_to_numpy j index_group)
  else Matrix.

(** The body of the loop over [index_group.columns]. *)
Definition append_feature (df : DataFrame) (index_group : list Row)
           (features : list NumpyFeature) (item : nat * string)
  : result (list NumpyFeature) :=
  feature ← NumpyFeature_init item.2
              (column_array df index_group item.1 item.2);
  Ok (features ++ [feature]).

(** The body of the loop of [dataframe_to_event] over the distinct index
    values.  A frame whose only index level is the timestamp has the
    unnamed default index once the timestamp is reset, and pandas rejects
    grouping by its names [[None]]. *)
Definition to_event_body (df : DataFrame)
           (acc : list (index_key * list float)
                  * list (index_key * list NumpyFeature))
           (index : index_key)
  : result (list (index_key * list float)
            * list (index_key * list NumpyFeature)) :=
  let '(sampling, data) := acc in
  if bool_decide (index_names df = []) then Raise TypeError
  else
    let index_group := get_group df index in
    let timestamps := row_timestamp <$> index_group in
    let sampling := odict_set index timestamps sampling in
    features ← for_each (append_feature df index_group)
                        (imap pair (columns df)) [];
    Ok (sampling, odict_set index features data).

(** [NumpyEvent.dataframe_to_event]. *)
Definition dataframe_to_event (df : DataFrame) : result NumpyEvent :=
  let index_without_ts := row_index <$> rows df in
  acc ← for_each (to_event_body df) (unique index_without_ts) ([], []);
  Ok (mkNumpyEvent acc.2 (mkNumpySampling (index_names df) acc.1)).

(** [df.loc[new_index, df_features] = cells]: the row with this index and
    timestamp gets the cells if the frame has it, else a new row is added
    last. *)
Definition same_label (index : index_key) (timestamp : float) (r : Row)
  : bool :=
  bool_decide (row_index r = index)
  && PrimFloat.eqb (row_timestamp r) timestamp.

Definition loc_set (rows : list Row) (index : index_key) (timestamp : float)
           (cells : list scalar) : list Row :=
  if existsb (same_label index timestamp) rows
  then (fun r => if same_label index timestamp r
                 then mkRow (row_index r) (row_timestamp r) cells
                 else r) <$> rows
  else rows ++ [mkRow index timestamp cells].

(** [[feature.data[i] for feature in features]]. *)
Fixpoint cells_at (i : nat) (features : list NumpyFeature)
  : result (list scalar) :=
  match features with
  | [] => Ok []
  | feature :: rest =>
      match data feature !! i with
      | Some v => cells ← cells_at i rest; Ok (v :: cells)
      | None => Raise IndexError
      end
  end.

(** The inner loop of [event_to_dataframe], over the enumerated timestamps
    of one index value. *)
Definition timestamp_body (df_features : list string) (index : index_key)
           (features : list NumpyFeature) (rows : list Row)
           (item : nat * float) : result (list Row) :=
  let '(i, timestamp) := item in
  cells ← cells_at i features;
  if bool_decide (length cells = length df_features)
  then Ok (loc_set rows index timestamp cells)
  else Raise (ValueError
                ("Must have equal len keys and value "
                 +:+ "when setting with an iterable")).

(** The outer loop of [event_to_dataframe], over [event.data.items()]. *)
Definition index_body (event : NumpyEvent) (rows : list Row)
           (item : index_key * list NumpyFeature) : result (list Row) :=
  let '(index, features) := item in
  match odict_get index (sampling_data (sampling event)) with
  | None => Raise KeyError
  | Some timestamps_index =>
      for_each (timestamp_body (feature_names event) index features)
               (imap pair timestamps_index) rows
  end.

(** [NumpyEvent.event_to_dataframe].  The final [astype] gives every
    column the numpy type of the first element of the first group's
    buffer; the cells of a buffer have one numpy type and keep their
    value. *)
Definition event_to_dataframe (event : NumpyEvent) : result DataFrame :=
  let df_features := feature_names event in
  rows ← for_each (index_body event) (event_data event) [];
  match event_data event with
  | [] => Raise IndexError
  | (_, first_features) :: _ =>
      if forallb (fun feature => bool_decide (data feature <> []))
                 first_features
      then Ok (mkDataFrame (names (sampling event)) df_features rows)
      else Raise IndexError
  end.

(** A frame to an event and back. *)
Definition round_trip (df : DataFrame) : result DataFrame :=
  event ← dataframe_to_event df; event_to_dataframe event.

(** Two rows do not tie when neither has the index value and the timestamp
    of the other; a list of rows is tie-free when no two of its rows tie. *)
Definition no_tie (a b : Row) : bool :=
  negb (same_label (row_index a) (row_timestamp a) b)
  && negb (same_label (row_index b) (row_timestamp b) a).

Fixpoint tie_free (rs : list Row) : bool :=
  match rs with
  | [] => true
  | r :: rest => forallb (no_tie r) rest && tie_free rest
  end.

(** The rows of a frame, group after group, the groups in the order of
    first appearance of their index value. *)
Definition grouped (df : DataFrame) : list Row :=
  concat (get_group df <$> unique (row_index <$> rows df)).

(** The timestamps and the features [dataframe_to_event] stores for an
    index value. *)
Definition group_timestamps (df : DataFrame) (index : index_key)
  : list float :=
  row_timestamp <$> get_group df index.

Definition group_features (df : DataFrame) (index : index_key)
  : list NumpyFeature :=
  imap (fun j column_name =>
          mkNumpyFeature column_name
                         (column_to_numpy j (get_group df index)))
       (columns df).

(** Every column of the frame has a dtype that [NumpyFeature] accepts. *)
Definition supported_columns (df : DataFrame) : bool :=
  forallb (fun j => in_DTYPE_MAPPING (dtype_of (column_to_numpy j (rows df))))
          (seq 0 (length (columns df))).

(** A frame with two index levels, two columns, two groups whose rows
    alternate, and no tie. *)
Definition frame_two_groups : DataFrame :=
  mkDataFrame ["id"%string; "c"%string] ["a"%string; "b"%string]
    [mkRow [IInt 1; IStr "x"] 3%float [F64 5%float; I64 1];
     mkRow [IInt 2; IStr "x"] 1%float [F64 6%float; I64 2];
     mkRow [IInt 1; IStr "x"] 1%float [F64 7%float; I64 3];
     mkRow [IInt 2; IStr "x"] 3%float [F64 8%float; I64 4]].

(** A frame with the index level ["id"], the column ["a"], and two rows
    for [id = 1] at the timestamp 1. *)
Definition frame_tie : DataFrame :=
  mkDataFrame ["id"%string] ["a"%string]
              [mkRow [IInt 1] 1%float [F64 5%float];
               mkRow [IInt 1] 1%float [F64 7%float]].

End Tabular.

(** ** Further nodes used in examples *)

Module Nodes.
Import Core.

(** A node with the single feature ["a"] and the single index level
    ["user"], whose sampling is the object 0. *)
Definition event_a : Event.t :=
  Event.mk [Feature.mk "a" FLOAT64 Rename.sampling_user None]
           Rename.sampling_user None.

End Nodes.

(** ** The operator a calendar constructor wires *)

Module CalendarWiring.
Import Core.

(** The operator [BaseCalendarOperator.__init__] has wired when it reaches
    [self.check()]. *)
Definition wired (output_feature_name : string) (sampling : Event.t)
           (st : Alloc) : Operator.t :=
  let self_id := next_operator st in
  Operator.mk self_id {[ "sampling"%string := sampling ]}
    {[ "event"%string :=
         Event.mk [Feature.mk output_feature_name INT32
                              (Event.sampling sampling) (Some self_id)]
                  (Event.sampling sampling) (Some self_id) ]}
    ∅.

End CalendarWiring.

(** ** Views of the tabular loops *)

Module TabularViews.
Import Tabular.


(** The number of timestamps the sampling of an event holds for the index
    values of its data. *)
Definition timestamp_count (event : NumpyEvent) : nat :=
  sum_list ((fun item : index_key * list NumpyFeature =>
               length (default [] (odict_get item.1
                                     (sampling_data (sampling event)))))
              <$> event_data event).




(** An event with one group, one feature and one timestamp, and the frame
    with its one row. *)
Definition event_one_row : NumpyEvent :=
  mkNumpyEvent [([IInt 1], [mkNumpyFeature "a" [F64 5%float]])]
               (mkNumpySampling ["id"%string] [([IInt 1], [1%float])]).

Definition frame_one_row : DataFrame :=
  mkDataFrame ["id"%string] ["a"%string]
              [mkRow [IInt 1] 1%float [F64 5%float]].

End TabularViews.

(** * Properties *)

(** ** Since-last *)

Module SinceLastFacts.
Import Py SinceLast.

Section Groups.
Variable native : list float -> list float -> list float.

(** A loop over pairwise distinct keys writes, for each key it visits,
    the group computed from that key's data, and leaves the other
    entries of the accumulator alone. *)
Lemma for_each_loop_body sampling items acc out :
  NoDup items.*1 ->
  for_each (loop_body native sampling) items acc = Ok out ->
  feature_names out = feature_names acc /\
  index_names out = index_names acc /\
  is_unix_timestamp out = is_unix_timestamp acc /\
  forall k,
    data out !! k =
      match (list_to_map items : gmap index_key IndexData) !! k with
      | Some d =>
          Some (eval_group native (sampling_of sampling k) (timestamps d))
      | None => data acc !! k
      end.
Proof.
  revert acc. induction items as [|[k0 d0] items IH]; intros acc Hnd Hrun.
  - simpl in Hrun. injection Hrun as <-. repeat split.
  - simpl in Hnd. apply NoDup_cons in Hnd as [Hk0 Hnd].
    simpl in Hrun. unfold loop_body at 1 in Hrun.
    destruct sampling as [s|].
    + unfold getitem in Hrun.
      destruct (data s !! k0) as [g|] eqn:Hg; [|discriminate].
      simpl in Hrun. apply IH in Hrun as (Hf & Hi & Hu & Hlk); [|done].
      repeat split; [done..|]. intros k. rewrite Hlk. simpl.
      destruct (decide (k = k0)) as [->|Hne].
      * rewrite (not_elem_of_list_to_map_1 _ _ Hk0).
        rewrite !lookup_insert_eq. unfold sampling_of. simpl.
        rewrite Hg. reflexivity.
      * rewrite !lookup_insert_ne by done. reflexivity.
    + simpl in Hrun. apply IH in Hrun as (Hf & Hi & Hu & Hlk); [|done].
      repeat split; [done..|]. intros k. rewrite Hlk. simpl.
      destruct (decide (k = k0)) as [->|Hne].
      * rewrite (not_elem_of_list_to_map_1 _ _ Hk0).
        rewrite !lookup_insert_eq. reflexivity.
      * rewrite !lookup_insert_ne by done. reflexivity.
Qed.

(** Every key the loop visits with a sampling is a key of the sampling. *)
Lemma for_each_loop_body_keys s items acc out :
  for_each (loop_body native (Some s)) items acc = Ok out ->
  forall k, k ∈ items.*1 -> is_Some (data s !! k).
Proof.
  revert acc. induction items as [|[k0 d0] items IH]; intros acc Hrun k Hk.
  - simpl in Hk. by apply elem_of_nil in Hk.
  - simpl in Hrun. unfold loop_body at 1 in Hrun. unfold getitem in Hrun.
    destruct (data s !! k0) as [g|] eqn:Hg; [|discriminate].
    simpl in Hrun, Hk. apply elem_of_cons in Hk as [->|Hk].
    + by eexists.
    + by eapply IH.
Qed.

(** With a sampling that has every visited key, the loop does not
    raise. *)
Lemma for_each_loop_body_ok sampling items acc :
  (forall s k, sampling = Some s -> k ∈ items.*1 -> is_Some (data s !! k)) ->
  exists out, for_each (loop_body native sampling) items acc = Ok out.
Proof.
  revert acc. induction items as [|[k0 d0] items IH]; intros acc Hall.
  - by eexists.
  - simpl. unfold loop_body at 1. destruct sampling as [s|].
    + destruct (Hall s k0 eq_refl) as [g Hg]; [simpl; by left|].
      unfold getitem. rewrite Hg. simpl. apply IH.
      intros s' k [= <-] Hk. apply Hall; [done|]. simpl. by right.
    + simpl. apply IH. intros s' k [=].
Qed.

(** The result of a successful call, group by group. *)
Lemma call_ok operator input sampling outs :
  call native operator input sampling = Ok outs ->
  exists out,
    outs = {[ "output"%string := out ]} /\
    feature_names out = ["since_last"%string] /\
    index_names out = index_names input /\
    is_unix_timestamp out = is_unix_timestamp input /\
    forall k,
      data out !! k =
        eval_group native (sampling_of sampling k) <$>
          (timestamps <$> data input !! k).
Proof.
  unfold call. destruct (negb _); [discriminate|].
  destruct (for_each _ _ _) as [out|e] eqn:Hrun; [|discriminate].
  simpl. intros [= <-]. exists out.
  apply for_each_loop_body in Hrun as (Hf & Hi & Hu & Hlk);
    [|apply NoDup_fst_map_to_list].
  repeat split; [done..|]. intros k. rewrite Hlk.
  unfold iterindex. rewrite list_to_map_to_list. simpl.
  destruct (data input !! k); reflexivity.
Qed.

(** A call without sampling, on an operator built without sampling,
    never raises. *)
Lemma call_no_sampling_ok operator input :
  has_sampling operator = false ->
  exists outs, call native operator input None = Ok outs.
Proof.
  intros Hs. unfold call. rewrite Hs.
  rewrite bool_decide_eq_false_2 by (intros [? [=]]). simpl.
  edestruct (for_each_loop_body_ok None (iterindex input)) as [out ->].
  - intros s k [=].
  - by eexists.
Qed.

Lemma diff_lookup (a : list float) (i : nat) (x y : float) :
  a !! i = Some x -> a !! S i = Some y ->
  Np.diff a !! i = Some (PrimFloat.sub y x).
Proof.
  revert i. induction a as [|x0 [|y0 rest] IH]; intros i Hx Hy.
  - by rewrite lookup_nil in Hx.
  - simpl in Hy. by rewrite lookup_nil in Hy.
  - destruct i as [|i].
    + simpl in *. congruence.
    + change (Np.diff (x0 :: y0 :: rest))
        with (PrimFloat.sub y0 x0 :: Np.diff (y0 :: rest)).
      rewrite lookup_cons. simpl. apply IH; assumption.
Qed.

Lemma diff_length (a : list float) :
  length (Np.diff a) = Nat.pred (length a).
Proof.
  induction a as [|x0 [|y0 rest] IH]; [reflexivity..|].
  change (Np.diff (x0 :: y0 :: rest))
    with (PrimFloat.sub y0 x0 :: Np.diff (y0 :: rest)).
  simpl in *. by rewrite IH.
Qed.

(** C1. Without an explicit sampling, for every index group whose
    timestamps are ascending the since-last output of that group has
    the timestamps of the input, one feature buffer whose first element
    is NaN and whose element [i+1] is [timestamps[i+1] - timestamps[i]]
    (the backward first difference); on timestamps [10, 12, 15] the
    buffer is [NaN, 2, 3]. *)
Theorem since_last_no_sampling_group operator input k d :
  has_sampling operator = false ->
  data input !! k = Some d ->
  Np.ascending (timestamps d) = true ->
  exists outs values,
    call native operator input None = Ok outs /\
    output_group (Ok outs) k
      = Some (mkIndexData [values] (timestamps d)) /\
    values !! 0%nat = Some Np.nan /\
    length values = S (Nat.pred (length (timestamps d))) /\
    (forall i x y,
        timestamps d !! i = Some x -> timestamps d !! S i = Some y ->
        values !! S i = Some (PrimFloat.sub y x)) /\
    output_group
      (call native (mkSinceLast false)
            (flat_event_set [10; 12; 15]%float) None) []
      = Some (mkIndexData [[Np.nan; 2; 3]%float] [10; 12; 15]%float).
Proof.
  intros Hs Hk _.
  destruct (call_no_sampling_ok operator input Hs) as [outs Hcall].
  exists outs, (Np.nan :: Np.diff (timestamps d)).
  split; [exact Hcall|].
  apply call_ok in Hcall as (out & -> & _ & _ & _ & Hlk).
  split; [|split; [|split; [|split]]].
  - simpl. rewrite lookup_singleton_eq. simpl. rewrite Hlk, Hk.
    reflexivity.
  - reflexivity.
  - simpl. by rewrite diff_length.
  - intros i x y Hx Hy. simpl. by apply diff_lookup.
  - vm_compute. reflexivity.
Qed.

(** The loop raises nothing but the [KeyError] of the sampling lookup. *)
Lemma for_each_loop_body_raise sampling items acc e :
  for_each (loop_body native sampling) items acc = Raise e -> e = KeyError.
Proof.
  revert acc. induction items as [|[k0 d0] items IH]; intros acc Hrun.
  - discriminate.
  - simpl in Hrun. unfold loop_body at 1 in Hrun.
    destruct sampling as [s|].
    + unfold getitem in Hrun. destruct (data s !! k0) as [g|].
      * simpl in Hrun. by eapply IH.
      * simpl in Hrun. congruence.
    + simpl in Hrun. by eapply IH.
Qed.

(** C7 (amended). With an explicit sampling the implementation loops over
    the index groups of the input.  If some input group is absent from the
    sampling the call raises [KeyError] and there is no output.  If every
    input group is in the sampling the call returns, and the output has
    exactly the groups of the input, each with the sampling's timestamps of
    that group: a group that is only in the sampling has no output entry. *)
Theorem since_last_sampling_groups operator input sampling :
  has_sampling operator = true ->
  ((exists k, is_Some (data input !! k) /\ data sampling !! k = None) ->
   call native operator input (Some sampling) = Raise KeyError) /\
  ((forall k, is_Some (data input !! k) -> is_Some (data sampling !! k)) ->
   exists outs,
     call native operator input (Some sampling) = Ok outs /\
     forall k,
       output_group (Ok outs) k =
         match data input !! k, data sampling !! k with
         | Some d, Some s =>
             Some (mkIndexData [native (timestamps d) (timestamps s)]
                               (timestamps s))
         | _, _ => None
         end).
Proof.
  intros Hs. split.
  - intros (k & [d Hd] & Hk). unfold call. rewrite Hs.
    rewrite bool_decide_eq_true_2 by (by eexists). simpl.
    destruct (for_each _ _ _) as [out|e] eqn:Hrun.
    + pose proof (for_each_loop_body_keys _ _ _ _ Hrun k) as Hin.
      destruct Hin as [g Hg]; [|congruence].
      unfold iterindex. apply list_elem_of_fmap. exists (k, d).
      split; [done|]. by apply elem_of_map_to_list.
    + apply for_each_loop_body_raise in Hrun as ->. reflexivity.
  - intros Hall.
    destruct (call native operator input (Some sampling)) as [outs|e] eqn:Hc.
    + exists outs. split; [done|].
      apply call_ok in Hc as (out & -> & _ & _ & _ & Hlk). intros k.
      simpl. rewrite lookup_singleton_eq. simpl. rewrite Hlk.
      destruct (data input !! k) as [d|] eqn:Hd; [|done].
      destruct (Hall k) as [g Hg]; [by eexists|].
      unfold sampling_of. simpl. rewrite Hg. reflexivity.
    + exfalso. unfold call in Hc. rewrite Hs in Hc.
      rewrite bool_decide_eq_true_2 in Hc by (by eexists). simpl in Hc.
      edestruct (for_each_loop_body_ok (Some sampling) (iterindex input))
        as [out Hout].
      * intros s k [= <-] Hk. apply Hall.
        apply list_elem_of_fmap in Hk as ([k' d] & -> & Hin).
        apply elem_of_map_to_list in Hin. by eexists.
      * rewrite Hout in Hc. discriminate.
Qed.

(** C9 (amended). Since-last treats index groups independently whenever it
    returns: if two evaluations both return and their inputs agree on the
    timestamps of group [k] (and their samplings, when given, on the
    timestamps of group [k]), then the outputs agree on group [k], which is
    [eval_group] of these timestamps alone; without sampling an evaluation
    always returns; and equal inputs give equal results. *)
Theorem since_last_group_independence operator in1 in2 s1 s2 k outs1 outs2 :
  timestamps <$> data in1 !! k = timestamps <$> data in2 !! k ->
  sampling_of s1 k = sampling_of s2 k ->
  call native operator in1 s1 = Ok outs1 ->
  call native operator in2 s2 = Ok outs2 ->
  output_group (Ok outs1) k = output_group (Ok outs2) k /\
  output_group (Ok outs1) k =
    eval_group native (sampling_of s1 k) <$> (timestamps <$> data in1 !! k) /\
  (has_sampling operator = false ->
   forall input, is_ok (call native operator input None) = true) /\
  (in1 = in2 -> s1 = s2 -> outs1 = outs2).
Proof.
  intros Hts Hsamp Hc1 Hc2. split; [|split; [|split]].
  - apply call_ok in Hc1 as (o1 & -> & _ & _ & _ & Hl1).
    apply call_ok in Hc2 as (o2 & -> & _ & _ & _ & Hl2).
    simpl. rewrite !lookup_singleton_eq. simpl.
    rewrite Hl1, Hl2, Hts, Hsamp. reflexivity.
  - apply call_ok in Hc1 as (o1 & -> & _ & _ & _ & Hl1).
    simpl. rewrite lookup_singleton_eq. simpl. by rewrite Hl1.
  - intros Hs input.
    destruct (call_no_sampling_ok operator input Hs) as [outs ->].
    reflexivity.
  - intros -> ->. congruence.
Qed.

End Groups.

(** C7, as stated, fails.  [sampling_1_and_2] has the group [(2,)] and
    [group_1] does not: the call returns and the output has no entry for
    [(2,)], where the claim has an all-missing group.  [group_1_and_2] has
    the group [(2,)] and [sampling_1] does not: the claim has the call
    return without rows for [(2,)], the call raises [KeyError]. *)
Lemma since_last_sampling_groups_counterexample :
  (is_Some (data sampling_1_and_2 !! [IInt 2]) /\
   data group_1 !! [IInt 2] = None /\
   is_ok (SinceLastNumpyImplementation_call (mkSinceLast true) group_1
            (Some sampling_1_and_2)) = true /\
   ~ (exists d,
         output_group (SinceLastNumpyImplementation_call (mkSinceLast true)
                         group_1 (Some sampling_1_and_2)) [IInt 2] = Some d /\
         all_missing d)) /\
  (is_Some (data group_1_and_2 !! [IInt 2]) /\
   data sampling_1 !! [IInt 2] = None /\
   SinceLastNumpyImplementation_call (mkSinceLast true) group_1_and_2
     (Some sampling_1) = Raise KeyError).
Proof.
  split; [split; [|split; [|split]]|split; [|split]].
  - eexists. vm_compute. reflexivity.
  - vm_compute. reflexivity.
  - vm_compute. reflexivity.
  - intros (d & Hd & _). vm_compute in Hd. discriminate.
  - eexists. vm_compute. reflexivity.
  - vm_compute. reflexivity.
  - vm_compute. reflexivity.
Qed.

Lemma since_last_sampling_groups_witness :
  ((exists k, is_Some (data group_1_and_2 !! k) /\
              data sampling_1 !! k = None) ->
   SinceLastNumpyImplementation_call (mkSinceLast true) group_1_and_2
     (Some sampling_1) = Raise KeyError) /\
  ((forall k, is_Some (data group_1_and_2 !! k) ->
              is_Some (data sampling_1 !! k)) ->
   exists outs,
     SinceLastNumpyImplementation_call (mkSinceLast true) group_1_and_2
       (Some sampling_1) = Ok outs /\
     forall k,
       output_group (Ok outs) k =
         match data group_1_and_2 !! k, data sampling_1 !! k with
         | Some d, Some s =>
             Some (mkIndexData [since_last_cc (timestamps d) (timestamps s)]
                               (timestamps s))
         | _, _ => None
         end).
Proof.
  apply (since_last_sampling_groups since_last_cc (mkSinceLast true)
           group_1_and_2 sampling_1).
  reflexivity.
Defined.

(** C9, as stated, fails with a sampling: [group_1] and [group_1_and_2]
    agree on the group [(1,)], and [sampling_1] is the same in both calls,
    yet the first call returns an output for [(1,)] and the second raises
    [KeyError], because of the other group [(2,)]. *)
Lemma since_last_group_independence_counterexample :
  data group_1 !! [IInt 1] = data group_1_and_2 !! [IInt 1] /\
  output_group (SinceLastNumpyImplementation_call (mkSinceLast true)
                  group_1 (Some sampling_1)) [IInt 1]
    = Some (mkIndexData [[1]%float] [3]%float) /\
  SinceLastNumpyImplementation_call (mkSinceLast true) group_1_and_2
    (Some sampling_1) = Raise KeyError /\
  output_group (SinceLastNumpyImplementation_call (mkSinceLast true)
                  group_1 (Some sampling_1)) [IInt 1]
    <> output_group (SinceLastNumpyImplementation_call (mkSinceLast true)
                       group_1_and_2 (Some sampling_1)) [IInt 1].
Proof.
  split; [|split; [|split]].
  - vm_compute. reflexivity.
  - vm_compute. reflexivity.
  - vm_compute. reflexivity.
  - vm_compute. discriminate.
Qed.

Lemma since_last_group_independence_witness :
  exists outs1 outs2,
    SinceLastNumpyImplementation_call (mkSinceLast true) group_1
      (Some sampling_1) = Ok outs1 /\
    SinceLastNumpyImplementation_call (mkSinceLast true) group_1
      (Some sampling_1_and_2) = Ok outs2 /\
    output_group (Ok outs1) [IInt 1] = output_group (Ok outs2) [IInt 1].
Proof.
  eexists _, _. split; [vm_compute; reflexivity|].
  split; [vm_compute; reflexivity|].
  eapply (since_last_group_independence since_last_cc (mkSinceLast true)
            group_1 group_1 (Some sampling_1) (Some sampling_1_and_2)
            [IInt 1]).
  - reflexivity.
  - vm_compute. reflexivity.
  - vm_compute. reflexivity.
  - vm_compute. reflexivity.
Defined.

Lemma since_last_no_sampling_group_witness :
  exists outs values,
    SinceLastNumpyImplementation_call (mkSinceLast false)
      (flat_event_set [1; 4]%float) None = Ok outs /\
    output_group (Ok outs) []
      = Some (mkIndexData [values] [1; 4]%float) /\
    values !! 0%nat = Some Np.nan /\
    length values = 2%nat /\
    (forall i x y,
        [1; 4]%float !! i = Some x -> [1; 4]%float !! S i = Some y ->
        values !! S i = Some (PrimFloat.sub y x)) /\
    output_group
      (SinceLastNumpyImplementation_call (mkSinceLast false)
            (flat_event_set [10; 12; 15]%float) None) []
      = Some (mkIndexData [[Np.nan; 2; 3]%float] [10; 12; 15]%float).
Proof.
  apply (since_last_no_sampling_group since_last_cc (mkSinceLast false)
           (flat_event_set [1; 4]%float) []
           (mkIndexData [] [1; 4]%float)).
  - reflexivity.
  - reflexivity.
  - reflexivity.
Defined.

End SinceLastFacts.


(** ** Calendar operators *)

Module CalendarFacts.
Import Py Core Calendar.

(** The descriptor check accepts an operator with exactly the declared
    input and output, no attribute, and an output whose features share its
    sampling. *)
Lemma definition_check_calendar key id input output :
  Forall (fun f => Sampling.id (Feature.sampling f)
                   = Sampling.id (Event.sampling output))
         (Event.features output) ->
  definition_check (build_op_definition key)
    (Operator.mk id {[ "sampling"%string := input ]}
                 {[ "event"%string := output ]} ∅) = Ok tt.
Proof.
  intros Hshare. unfold definition_check. simpl.
  rewrite !map_to_list_singleton. simpl.
  rewrite !lookup_singleton_eq. simpl.
  rewrite andb_true_r.
  assert (forallb
            (fun f => bool_decide (Sampling.id (Feature.sampling f)
                                   = Sampling.id (Event.sampling output)))
            (Event.features output) = true) as ->; [|reflexivity].
  apply forallb_forall. intros f Hf. apply bool_decide_eq_true_2.
  rewrite Forall_forall in Hshare. apply Hshare. by apply list_elem_of_In.
Qed.

(** C10. Constructing a calendar operator on any input node wires an
    operator whose output node ["event"] has exactly one feature, of dtype
    INT32, named as the class declares, with the sampling object of the
    input node for both the feature and the node; no sampling is created.
    The constructor returns this operator once the base-class check passes,
    which the check against the class descriptor does. *)
Theorem calendar_output_schema (check : Operator.t -> result unit)
        (operator_def_key output_feature_name : string)
        (sampling : Event.t) (st : Alloc) :
  exists op out f st',
    Operator.outputs op !! "event"%string = Some out /\
    Event.features out = [f] /\
    Feature.name f = output_feature_name /\
    Feature.dtype f = INT32 /\
    Feature.sampling f = Event.sampling sampling /\
    Event.sampling out = Event.sampling sampling /\
    next_sampling st' = next_sampling st /\
    BaseCalendarOperator_init check output_feature_name sampling st
      = match check op with
        | Ok _ => Ok (op, st')
        | Raise e => Raise e
        end /\
    CalendarOperator operator_def_key output_feature_name sampling st
      = Ok (op, st').
Proof.
  set (f := Feature.mk output_feature_name INT32 (Event.sampling sampling)
                       (Some (next_operator st))).
  set (out := Event.mk [f] (Event.sampling sampling)
                       (Some (next_operator st))).
  exists (Operator.mk (next_operator st) {[ "sampling"%string := sampling ]}
            {[ "event"%string := out ]} ∅), out, f,
         (mkAlloc (S (next_operator st)) (next_sampling st)).
  split; [apply lookup_singleton_eq|].
  split; [reflexivity|]. simpl.
  repeat (split; [reflexivity|]).
  split.
  - unfold BaseCalendarOperator_init, mbind, M_bind, Operator_init, lift,
      mret, M_ret. simpl.
    unfold Operator.add_output, Operator.add_input. simpl.
    rewrite !insert_empty. destruct (check _) as [[]|e]; reflexivity.
  - unfold CalendarOperator, BaseCalendarOperator_init, mbind, M_bind,
      Operator_init, lift, mret, M_ret. simpl.
    unfold Operator.add_output, Operator.add_input. simpl.
    rewrite !insert_empty. rewrite definition_check_calendar.
    + reflexivity.
    + simpl. by constructor.
Qed.

End CalendarFacts.

(** ** The rename operator *)

Module RenameFacts.
Import Py Core Rename.

Lemma remove_dups_length_le `{EqDecision A} (l : list A) :
  (length (remove_dups l) <= length l)%nat.
Proof.
  induction l as [|x l IH]; simpl; [lia|].
  destruct (decide_rel elem_of x l); simpl; lia.
Qed.

(** [len(set(values)) == len(values)] says that the values are pairwise
    distinct. *)
Lemma remove_dups_length_NoDup `{EqDecision A} (l : list A) :
  length (remove_dups l) = length l <-> NoDup l.
Proof.
  induction l as [|x l IH]; simpl.
  - split; [constructor|reflexivity].
  - destruct (decide_rel elem_of x l) as [Hin|Hnin]; simpl.
    + split.
      * intros Hlen. pose proof (remove_dups_length_le l). lia.
      * intros Hnd. apply NoDup_cons in Hnd as [Hnin _]. done.
    + rewrite NoDup_cons. split.
      * intros [= Hlen]. split; [done|]. by apply IH.
      * intros [_ Hnd]. f_equal. by apply IH.
Qed.

(** The loop over the keys of a rename dict. *)
Lemma check_keys_ok (event_names ks : list string) :
  for_each (fun (_ : unit) key =>
              if bool_decide (key ∈ event_names) then Ok tt
              else Raise KeyError) ks tt
  = if bool_decide (Forall (fun k => k ∈ event_names) ks)
    then Ok tt else Raise KeyError.
Proof.
  induction ks as [|k ks IH]; simpl.
  - reflexivity.
  - destruct (decide (k ∈ event_names)) as [Hk|Hk].
    + rewrite (bool_decide_eq_true_2 _ Hk). simpl. rewrite IH.
      destruct (decide (Forall (fun k => k ∈ event_names) ks)) as [Hf|Hf].
      * rewrite !bool_decide_eq_true_2; [done| |done]. by constructor.
      * rewrite !bool_decide_eq_false_2; [done| |done].
        intros Hc. apply Forall_cons in Hc as [_ Hc]. done.
    + rewrite (bool_decide_eq_false_2 _ Hk). simpl.
      rewrite bool_decide_eq_false_2; [done|].
      intros Hc. apply Forall_cons in Hc as [Hc _]. done.
Qed.

Lemma forallb_false_elem_of {A} (p : A -> bool) (l : list A) :
  forallb p l = false -> exists x, x ∈ l /\ p x = false.
Proof.
  induction l as [|x l IH]; simpl; [done|].
  destruct (p x) eqn:Hx; simpl.
  - intros (y & Hy & Hpy)%IH. exists y. split; [by right|done].
  - intros _. exists x. split; [by left|done].
Qed.

(** A value without a hash is not a string. *)
Lemma unhashable_not_str v : hashable v = false -> is_str v = false.
Proof. by destruct v. Qed.

(** The defects [check_rename_dict] looks for, as one proposition. *)
Lemma check_rename_dict_raise_iff d names dict_name :
  (exists e, check_rename_dict d names dict_name = Raise e)
  <-> arg_defect names (ArgDict d).
Proof.
  unfold check_rename_dict, arg_defect.
  destruct (forallb hashable (values d)) eqn:Hhash; simpl.
  2:{ split; [|by eexists]. intros _. right. left.
      apply forallb_false_elem_of in Hhash as (v & Hv & Hnh).
      exists v. split; [done|]. left. by apply unhashable_not_str. }
  destruct (Nat.eqb_spec (length (remove_dups (values d)))
                         (length (values d))) as [Hlen|Hlen]; simpl.
  2:{ split; [|by eexists]. intros _. left.
      by rewrite <- remove_dups_length_NoDup. }
  apply remove_dups_length_NoDup in Hlen.
  destruct (forallb is_str (values d)) eqn:Hstr; simpl.
  2:{ split; [|by eexists]. intros _. right. left.
      apply not_true_iff_false in Hstr.
      rewrite forallb_forall in Hstr.
      destruct (decide (Forall (fun v => is_str v = true) (values d)))
        as [Hall|Hnall].
      - exfalso. apply Hstr. intros v Hv. rewrite Forall_forall in Hall.
        apply Hall. by apply list_elem_of_In.
      - apply not_Forall_Exists in Hnall; [|intros v; apply _].
        apply Exists_exists in Hnall as (v & Hv & Hns).
        exists v. split; [done|]. left. by apply not_true_is_false. }
  destruct (forallb truthy (values d)) eqn:Htr; simpl.
  2:{ split; [|by eexists]. intros _. right. left.
      apply not_true_iff_false in Htr.
      rewrite forallb_forall in Htr.
      destruct (decide (Forall (fun v => truthy v = true) (values d)))
        as [Hall|Hnall].
      - exfalso. apply Htr. intros v Hv. rewrite Forall_forall in Hall.
        apply Hall. by apply list_elem_of_In.
      - apply not_Forall_Exists in Hnall; [|intros v; apply _].
        apply Exists_exists in Hnall as (v & Hv & Hnt).
        exists v. split; [done|].
        rewrite forallb_forall in Hstr.
        specialize (Hstr v ltac:(by apply list_elem_of_In)).
        destruct v as [s| | |]; try discriminate. right.
        simpl in Hnt. apply not_true_is_false in Hnt.
        apply negb_false_iff, bool_decide_eq_true_1 in Hnt. by subst. }
  rewrite check_keys_ok.
  destruct (decide (Forall (fun k => k ∈ names) (keys d))) as [Hk|Hk].
  - rewrite (bool_decide_eq_true_2 _ Hk). simpl. split.
    + intros [e [=]].
    + intros [Hnd|[(v & Hv & Hbad)|(k & Hin & Hnin)]].
      * done.
      * exfalso. rewrite forallb_forall in Hstr, Htr.
        apply list_elem_of_In in Hv.
        specialize (Hstr v Hv). specialize (Htr v Hv).
        destruct Hbad as [Hbad| ->]; [congruence|]. discriminate.
      * exfalso. rewrite Forall_forall in Hk. by apply Hnin, Hk.
  - rewrite (bool_decide_eq_false_2 _ Hk). simpl. split; [|by eexists].
    intros _. right. right.
    apply not_Forall_Exists in Hk; [|intros k; apply _].
    apply Exists_exists in Hk as (k & Hin & Hnin). by exists k.
Qed.




(** A dict that passes [check_rename_dict] comes back as it is. *)
Lemma check_rename_dict_ok d names dict_name d' :
  check_rename_dict d names dict_name = Ok d' -> d' = d.
Proof.
  unfold check_rename_dict.
  destruct (negb _); [discriminate|].
  destruct (negb _); [discriminate|].
  destruct (negb _); [discriminate|].
  destruct (negb _); [discriminate|].
  rewrite check_keys_ok. destruct (bool_decide _); simpl; [|discriminate].
  by intros [= <-].
Qed.







(** The constructor, step by step: the two arguments are turned into
    dicts, which may raise; then the operator is wired and checked. *)
Lemma RenameOperator_init_unfold check event features index st :
  RenameOperator_init check event features index st =
    match features_dict event features with
    | Raise e => Raise e
    | Ok self_features =>
        match index_dict (Event.index_names event) index with
        | Raise e => Raise e
        | Ok self_index =>
            match check (wired st event index self_features self_index).1 with
            | Raise e => Raise e
            | Ok _ => Ok (wired st event index self_features self_index)
            end
        end
    end.
Proof.
  unfold RenameOperator_init, mbind, M_bind, Operator_init, lift, mret, M_ret.
  simpl. destruct (features_dict event features) as [sf|e]; [|reflexivity].
  destruct (index_dict _ index) as [si|e]; [|reflexivity].
  unfold wired, new_sampling, Sampling_new, Operator.add_output,
    Operator.add_input, Operator.add_attribute. simpl.
  rewrite !insert_empty.
  destruct (arg_truthy index); simpl; destruct (check _) as [[]|e];
    reflexivity.
Qed.

(** Every output feature carries the output sampling. *)
Lemma output_features_sampling self_id self_features output_sampling event :
  Forall (fun f => Feature.sampling f = output_sampling)
         (output_features self_id self_features output_sampling event).
Proof.
  unfold output_features. apply Forall_fmap, Forall_true. done.
Qed.

(** The check against the descriptor accepts what [__init__] wires. *)
Lemma definition_check_wired st event index self_features self_index :
  definition_check build_op_definition
    (wired st event index self_features self_index).1 = Ok tt.
Proof.
  unfold definition_check, wired. simpl.
  rewrite !map_to_list_singleton. simpl.
  rewrite !lookup_singleton_eq. simpl.
  rewrite lookup_insert_ne by done. rewrite lookup_singleton_eq.
  rewrite lookup_insert_eq. simpl. rewrite andb_true_r.
  match goal with
  | |- (if forallb ?p ?l then _ else _) = _ =>
      assert (forallb p l = true) as ->; [|reflexivity]
  end.
  apply forallb_forall. intros f Hf. apply bool_decide_eq_true_2.
  pose proof (output_features_sampling (next_operator st) self_features
    (if arg_truthy index
     then Sampling.mk (next_sampling st)
            ((fun level =>
                IndexLevel.mk (renamed self_index (IndexLevel.name level))
                              (IndexLevel.dtype level))
               <$> Sampling.index_levels (Event.sampling event))
            (Some (next_operator st))
            (Sampling.is_unix_timestamp (Event.sampling event))
     else Event.sampling event) event) as Hall.
  rewrite Forall_forall in Hall. apply list_elem_of_In in Hf.
  by rewrite (Hall f Hf).
Qed.

Lemma RenameOperator_unfold event features index st :
  RenameOperator event features index st =
    match features_dict event features with
    | Raise e => Raise e
    | Ok self_features =>
        match index_dict (Event.index_names event) index with
        | Raise e => Raise e
        | Ok self_index => Ok (wired st event index self_features self_index)
        end
    end.
Proof.
  unfold RenameOperator. rewrite RenameOperator_init_unfold.
  destruct (features_dict event features) as [sf|e]; [|reflexivity].
  destruct (index_dict _ index) as [si|e]; [|reflexivity].
  by rewrite definition_check_wired.
Qed.

Lemma rename_unfold check event features index st :
  rename check event features index st =
    match RenameOperator_init check event features index st with
    | Raise e => Raise e
    | Ok (operator, st') =>
        match Operator.outputs operator !! "event"%string with
        | Some out => Ok (out, st')
        | None => Raise KeyError
        end
    end.
Proof.
  unfold rename, mbind, M_bind, lift, getitem.
  destruct (RenameOperator_init _ _ _ _ _) as [[op st']|e]; [|reflexivity].
  destruct (Operator.outputs op !! _); reflexivity.
Qed.

Lemma wired_outputs st event index sf si :
  Operator.outputs (wired st event index sf si).1 !! "event"%string
  = Some (wired_output st event index sf si).
Proof. unfold wired. simpl. apply lookup_singleton_eq. Qed.

Lemma rename_node_ok event features index st sf si :
  features_dict event features = Ok sf ->
  index_dict (Event.index_names event) index = Ok si ->
  rename_node event features index st
  = Ok (wired_output st event index sf si,
        (wired st event index sf si).2).
Proof.
  intros Hf Hi. unfold rename_node. rewrite rename_unfold.
  fold RenameOperator. rewrite RenameOperator_unfold, Hf, Hi.
  rewrite (surjective_pairing (wired st event index sf si)).
  by rewrite wired_outputs.
Qed.





(** A dict with one entry and a non-empty target for an existing name
    passes [check_rename_dict]. *)
Lemma check_rename_dict_singleton (a b : string) names dict_name :
  b <> ""%string -> a ∈ names ->
  check_rename_dict {[ a := PStr b ]} names dict_name
  = Ok {[ a := PStr b ]}.
Proof.
  intros Hb Ha. unfold check_rename_dict, values, keys.
  rewrite map_to_list_singleton. simpl.
  destruct (decide_rel elem_of (PStr b) []) as [Hin|_];
    [by apply elem_of_nil in Hin|]. simpl.
  rewrite (bool_decide_eq_false_2 _ Hb). simpl.
  by rewrite (bool_decide_eq_true_2 _ Ha).
Qed.

(** Renaming [a] to [b] and then [b] to [a] gives back every name of a
    list without [b]. *)
Lemma renamed_round_trip (a b : string) (names : list string) :
  b ∉ names ->
  renamed {[ b := PStr a ]} <$> (renamed {[ a := PStr b ]} <$> names)
  = names.
Proof.
  intros Hb. rewrite <- list_fmap_compose.
  rewrite <- (list_fmap_id names) at 2.
  apply list_fmap_ext. intros i n Hn. simpl. unfold renamed.
  destruct (decide (n = a)) as [->|Hna].
  - rewrite lookup_singleton_eq. simpl. by rewrite lookup_singleton_eq.
  - rewrite (lookup_singleton_ne a n) by congruence.
    rewrite lookup_singleton_ne; [done|].
    intros ->. apply Hb. by eapply list_elem_of_lookup_2.
Qed.

(** C4. On a node with a feature ["a"] and no feature ["b"], renaming
    ["a"] to ["b"] and then ["b"] to ["a"] returns, both times, and the
    final node has the feature names, dtypes and sampling object of the
    original node, every feature carrying that sampling; the evaluation of
    the two renames gives back the event set itself, with every group's
    timestamps and buffers as they were. *)
Theorem rename_round_trip event st :
  "a"%string ∈ Feature.name <$> Event.features event ->
  "b"%string ∉ Feature.name <$> Event.features event ->
  exists e1 st1 e2 st2,
    rename_node event (ArgDict {[ "a"%string := PStr "b" ]}) ArgNone st
    = Ok (e1, st1) /\
    rename_node e1 (ArgDict {[ "b"%string := PStr "a" ]}) ArgNone st1
    = Ok (e2, st2) /\
    Feature.name <$> Event.features e2
    = Feature.name <$> Event.features event /\
    Feature.dtype <$> Event.features e2
    = Feature.dtype <$> Event.features event /\
    Event.sampling e2 = Event.sampling event /\
    Forall (fun f => Feature.sampling f = Event.sampling event)
           (Event.features e2) /\
    forall es,
      SinceLast.feature_names es = Feature.name <$> Event.features event ->
      RenameNumpyImplementation_call {[ "b"%string := PStr "a" ]} ∅
        (RenameNumpyImplementation_call {[ "a"%string := PStr "b" ]} ∅ es)
      = es.
Proof.
  intros Ha Hb.
  set (d1 := ({[ "a"%string := PStr "b" ]} : gmap string pyvalue)).
  set (d2 := ({[ "b"%string := PStr "a" ]} : gmap string pyvalue)).
  set (e1 := wired_output st event ArgNone d1 ∅).
  set (st1 := (wired st event ArgNone d1 ∅).2).
  assert (Hn1 : Feature.name <$> Event.features e1
                = renamed d1 <$> (Feature.name <$> Event.features event)).
  { unfold e1, wired_output, output_features. simpl.
    rewrite <- !list_fmap_compose. reflexivity. }
  exists e1, st1, (wired_output st1 e1 ArgNone d2 ∅),
         (wired st1 e1 ArgNone d2 ∅).2.
  split; [|split; [|split; [|split; [|split; [|split]]]]].
  - apply rename_node_ok; [|reflexivity]. simpl.
    by apply check_rename_dict_singleton.
  - apply rename_node_ok; [|reflexivity].
    change (features_dict e1 (ArgDict {[ "b"%string := PStr "a" ]}))
      with (check_rename_dict {[ "b"%string := PStr "a" ]}
              (Feature.name <$> Event.features e1) "features").
    apply check_rename_dict_singleton; [done|]. rewrite Hn1.
    apply list_elem_of_fmap. exists "a"%string. split; [|done].
    unfold renamed, d1. by rewrite lookup_singleton_eq.
  - transitivity (renamed d2 <$> (Feature.name <$> Event.features e1)).
    + unfold wired_output, output_features. simpl.
      rewrite <- !list_fmap_compose. reflexivity.
    + rewrite Hn1. by apply renamed_round_trip.
  - unfold e1, wired_output, output_features. simpl.
    rewrite <- !list_fmap_compose. reflexivity.
  - reflexivity.
  - unfold wired_output. simpl. apply output_features_sampling.
  - intros [dt fn inn u] Hfn. unfold RenameNumpyImplementation_call.
    simpl in *. f_equal.
    + subst fn. by apply renamed_round_trip.
    + rewrite <- list_fmap_compose. rewrite <- (list_fmap_id inn) at 2.
      apply list_fmap_ext. intros i n _. reflexivity.
Qed.

Lemma rename_round_trip_witness :
  exists e1 st1 e2 st2,
    rename_node event_a_c (ArgDict {[ "a"%string := PStr "b" ]}) ArgNone
                alloc_1 = Ok (e1, st1) /\
    rename_node e1 (ArgDict {[ "b"%string := PStr "a" ]}) ArgNone st1
    = Ok (e2, st2) /\
    Feature.name <$> Event.features e2
    = Feature.name <$> Event.features event_a_c /\
    Feature.dtype <$> Event.features e2
    = Feature.dtype <$> Event.features event_a_c /\
    Event.sampling e2 = Event.sampling event_a_c /\
    Forall (fun f => Feature.sampling f = Event.sampling event_a_c)
           (Event.features e2) /\
    forall es,
      SinceLast.feature_names es
      = Feature.name <$> Event.features event_a_c ->
      RenameNumpyImplementation_call {[ "b"%string := PStr "a" ]} ∅
        (RenameNumpyImplementation_call {[ "a"%string := PStr "b" ]} ∅ es)
      = es.
Proof.
  apply (rename_round_trip event_a_c alloc_1).
  - simpl. apply list_elem_of_here.
  - simpl. intros Hin. apply elem_of_cons in Hin as [[=]|Hin].
    apply elem_of_cons in Hin as [[=]|Hin]. by apply elem_of_nil in Hin.
Defined.

End RenameFacts.

(** ** The order of binary64 floats *)

Module FloatOrder.

Lemma SFleb_trans (x y z : spec_float) :
  SFleb x y = true -> SFleb y z = true -> SFleb x z = true.
Proof.
  unfold SFleb, SFcompare.
  destruct x as [sx|sx| |sx mx ex], y as [sy|sy| |sy my ey],
    z as [sz|sz| |sz mz ez];
    try destruct sx; try destruct sy; try destruct sz; simpl; try done;
    change (Pos.compare_cont Eq) with Pos.compare;
    destruct (Z.compare_spec ex ey), (Z.compare_spec ey ez),
      (Z.compare_spec ex ez); try lia; try done; subst;
    destruct (Pos.compare_spec mx my), (Pos.compare_spec my mz),
      (Pos.compare_spec mx mz); simpl; try done; try lia.
Qed.

Lemma SFleb_total (x y : spec_float) :
  SFeqb x x = true -> SFeqb y y = true ->
  SFleb x y = false -> SFleb y x = true.
Proof.
  unfold SFleb, SFeqb, SFcompare.
  destruct x as [sx|sx| |sx mx ex], y as [sy|sy| |sy my ey];
    try destruct sx; try destruct sy; simpl; try done;
    change (Pos.compare_cont Eq) with Pos.compare;
    intros _ _;
    destruct (Z.compare_spec ex ey), (Z.compare_spec ey ex);
    try lia; try done; subst;
    destruct (Pos.compare_spec mx my), (Pos.compare_spec my mx);
    simpl; try done; try lia.
Qed.

(** [<=] on floats is transitive: a NaN is below and above nothing. *)
Lemma leb_trans (a b c : float) :
  PrimFloat.leb a b = true -> PrimFloat.leb b c = true ->
  PrimFloat.leb a c = true.
Proof. rewrite !FloatAxioms.leb_spec. apply SFleb_trans. Qed.

(** [<=] is total on the floats that are not NaN. *)
Lemma leb_total (a b : float) :
  PrimFloat.is_nan a = false -> PrimFloat.is_nan b = false ->
  PrimFloat.leb a b = false -> PrimFloat.leb b a = true.
Proof.
  unfold PrimFloat.is_nan. rewrite !negb_false_iff.
  rewrite !FloatAxioms.leb_spec, !FloatAxioms.eqb_spec.
  apply SFleb_total.
Qed.

End FloatOrder.

(** ** Window operators: moving minimum *)

Module WindowFacts.
Import Py Core Window.

Section Sliding.
Context {T V : Type}.
Variable tleb : T -> T -> bool.
Variable lower : T -> T.
Variable vleb : V -> V -> bool.
Variable is_missing : V -> bool.
Variable missing : V.
Hypothesis tleb_trans :
  forall a b c, tleb a b = true -> tleb b c = true -> tleb a c = true.
Hypothesis vleb_trans :
  forall a b c, vleb a b = true -> vleb b c = true -> vleb a c = true.

Local Abbreviation push := (push vleb is_missing).
Local Abbreviation candidates := (candidates vleb is_missing).
Local Abbreviation before := (fun a b : T * V => tleb a.1 b.1 = true).

(** *** The deque operations *)

Lemma pop_back_while_keep p (e : T * V) dq :
  p e = false -> pop_back_while p (e :: dq) = e :: pop_back_while p dq.
Proof. intros He. simpl. rewrite He. by destruct (pop_back_while p dq). Qed.

Lemma pop_back_while_all p (dq : list (T * V)) :
  Forall (fun e => p e = true) dq -> pop_back_while p dq = [].
Proof.
  induction 1 as [|e dq He _ IH]; simpl; [done|]. by rewrite IH, He.
Qed.

Lemma pop_back_while_prefix p (dq : list (T * V)) :
  pop_back_while p dq `prefix_of` dq.
Proof.
  induction dq as [|e dq IH]; simpl; [done|].
  destruct (pop_back_while p dq) as [|e' rest].
  - destruct (p e); [apply prefix_nil|]. apply prefix_cons, prefix_nil.
  - by apply prefix_cons.
Qed.

Lemma pop_back_while_app p (a b : list (T * V)) :
  pop_back_while p (a ++ b) =
    match pop_back_while p b with
    | [] => pop_back_while p a
    | rest => a ++ rest
    end.
Proof.
  induction a as [|e a IH]; simpl.
  - by destruct (pop_back_while p b).
  - rewrite IH. destruct (pop_back_while p b) as [|e' rest]; [done|].
    by destruct a.
Qed.

Lemma pop_front_while_all p (a b : list (T * V)) :
  Forall (fun e => p e = true) a ->
  pop_front_while p (a ++ b) = pop_front_while p b.
Proof. induction 1 as [|e a He _ IH]; simpl; [done|]. by rewrite He. Qed.

Lemma pop_front_while_none p (dq : list (T * V)) :
  Forall (fun e => p e = false) dq -> pop_front_while p dq = dq.
Proof. destruct 1 as [|e dq He _]; simpl; [done|]. by rewrite He. Qed.

Lemma pop_front_while_split p (l : list (T * V)) :
  exists gone,
    l = gone ++ pop_front_while p l /\ Forall (fun e => p e = true) gone.
Proof.
  induction l as [|e l (gone & Hl & Hgone)]; simpl.
  - by exists [].
  - destruct (p e) eqn:He.
    + exists (e :: gone). split; [by rewrite Hl at 1|by constructor].
    + by exists [].
Qed.

(** Pushing into a longer deque changes only how much of the older part
    survives. *)
Lemma foldl_push_app (l a b : list (T * V)) :
  exists a', a' `prefix_of` a /\ foldl push (a ++ b) l = a' ++ foldl push b l.
Proof.
  revert a b. induction l as [|x l IH]; intros a b; simpl.
  - by exists a.
  - unfold Window.push at 2 4. destruct (is_missing x.2); [apply IH|].
    rewrite pop_back_while_app.
    destruct (pop_back_while _ b) as [|e rest] eqn:Hb.
    + destruct (IH (pop_back_while (fun b0 => negb (vleb b0.2 x.2)) a) [x])
        as (a' & Hpre & Heq).
      exists a'. split; [|exact Heq].
      etrans; [exact Hpre|apply pop_back_while_prefix].
    + rewrite <- app_assoc. apply IH.
Qed.

Lemma foldl_push_candidates (l dq : list (T * V)) :
  exists dq', dq' `prefix_of` dq /\ foldl push dq l = dq' ++ candidates l.
Proof.
  destruct (foldl_push_app l dq []) as (dq' & Hpre & Heq).
  rewrite app_nil_r in Heq. by exists dq'.
Qed.

Lemma candidates_app (a b : list (T * V)) :
  candidates (a ++ b) = foldl push (candidates a) b.
Proof. unfold Window.candidates. by rewrite foldl_app. Qed.

(** Candidates are events that were pushed. *)
Lemma foldl_push_elem_of (l dq : list (T * V)) e :
  e ∈ foldl push dq l -> e ∈ dq \/ e ∈ l.
Proof.
  revert dq. induction l as [|x l IH]; intros dq He; simpl in *.
  - by left.
  - apply IH in He as [He|He]; [|right; by right].
    unfold Window.push in He. destruct (is_missing x.2); [by left|].
    apply elem_of_app in He as [He|He].
    + left. eapply elem_of_prefix; [exact He|apply pop_back_while_prefix].
    + apply list_elem_of_singleton in He as ->. right. by left.
Qed.

Lemma candidates_Forall (P : T * V -> Prop) (l : list (T * V)) :
  Forall P l -> Forall P (candidates l).
Proof.
  rewrite !Forall_forall. intros Hl e He.
  apply foldl_push_elem_of in He as [He|He]; [by apply elem_of_nil in He|].
  by apply Hl.
Qed.

(** *** The front of the deque is the running minimum *)

Lemma agree_push (dq : list (T * V)) (acc : option V) (x : T * V) :
  agree vleb dq acc ->
  agree vleb (push dq x) (min_step vleb is_missing acc x).
Proof.
  unfold agree, Window.push, Window.min_step.
  destruct (is_missing x.2); [done|].
  destruct dq as [|front rest], acc as [m|]; simpl; try done.
  intros [<- Hrest]. destruct (vleb front.2 x.2) eqn:Hx.
  - destruct (pop_back_while_prefix (fun b => negb (vleb b.2 x.2)) rest)
      as [gone Hgone].
    assert (Hkeep :
      pop_back_while (fun b => negb (vleb b.2 x.2)) (front :: rest)
      = front :: pop_back_while (fun b => negb (vleb b.2 x.2)) rest).
    { apply pop_back_while_keep. by rewrite Hx. }
    simpl in Hkeep. rewrite Hx in Hkeep. simpl in *. rewrite Hkeep.
    simpl. split; [done|].
    apply Forall_app. split; [|by repeat constructor].
    rewrite Hgone in Hrest. by apply Forall_app in Hrest as [? _].
  - assert (Hall :
      pop_back_while (fun b => negb (vleb b.2 x.2)) (front :: rest) = []).
    { apply pop_back_while_all. constructor; [by rewrite Hx|].
      eapply Forall_impl; [exact Hrest|]. intros e He. simpl in He.
      destruct (vleb e.2 x.2) eqn:Hex; [|done].
      by rewrite (vleb_trans _ _ _ He Hex) in Hx. }
    simpl in Hall. rewrite Hx in Hall. simpl in *. rewrite Hall.
    simpl. split; [done|constructor].
Qed.

Lemma agree_foldl (l dq : list (T * V)) (acc : option V) :
  agree vleb dq acc ->
  agree vleb (foldl push dq l) (foldl (min_step vleb is_missing) acc l).
Proof.
  revert dq acc. induction l as [|x l IH]; intros dq acc H; simpl; [done|].
  by apply IH, agree_push.
Qed.

(** The front of the candidates of a window is its brute-force minimum. *)
Lemma candidates_front (window : list (T * V)) :
  match candidates window with
  | [] => missing
  | front :: _ => front.2
  end = reduce_min vleb is_missing missing window.
Proof.
  unfold reduce_min.
  pose proof (agree_foldl window [] None I) as H.
  unfold Window.candidates. unfold agree in H.
  destruct (foldl push [] window) as [|front rest],
    (foldl (min_step vleb is_missing) None window) as [m|]; try done.
  by destruct H as [-> _].
Qed.

(** *** Entering and leaving the window *)

Lemma enter_spec t pending dq pending' dq' :
  enter tleb vleb is_missing t pending dq = (pending', dq') ->
  exists entered,
    pending = entered ++ pending' /\
    Forall (fun e => tleb e.1 t = true) entered /\
    dq' = foldl push dq entered /\
    match pending' with
    | [] => True
    | e :: _ => tleb e.1 t = false
    end.
Proof.
  revert dq. induction pending as [|e pending IH]; intros dq; simpl.
  - intros [= <- <-]. by exists [].
  - destruct (tleb e.1 t) eqn:He.
    + intros Hrun. apply IH in Hrun as (entered & -> & Hall & -> & Hhd).
      exists (e :: entered). repeat split; [|done..]. by constructor.
    + intros [= <- <-]. by exists [].
Qed.

(** In an ascending sequence, what follows an event beyond [t] is beyond
    [t]. *)
Lemma sorted_beyond t (l : list (T * V)) :
  StronglySorted before l ->
  match l with [] => True | e :: _ => tleb e.1 t = false end ->
  Forall (fun e => tleb e.1 t = false) l.
Proof.
  destruct 1 as [|e l _ Hle]; [constructor|]. intros He.
  constructor; [done|]. eapply Forall_impl; [exact Hle|].
  intros e' Hee'. simpl in Hee'. destruct (tleb e'.1 t) eqn:Hc; [|done].
  by rewrite (tleb_trans _ _ _ Hee' Hc) in He.
Qed.

(** In an ascending sequence, what follows an event that has not expired
    has not expired. *)
Lemma sorted_not_expired t (l : list (T * V)) :
  StronglySorted before l ->
  Forall (fun e => expired tleb lower t e = false)
         (pop_front_while (expired tleb lower t) l).
Proof.
  induction 1 as [|e l _ IH Hle]; simpl; [constructor|].
  destruct (expired tleb lower t e) eqn:He; [done|].
  constructor; [done|]. eapply Forall_impl; [exact Hle|].
  intros e' Hee'. simpl in Hee'. unfold expired in *.
  apply negb_false_iff in He. apply negb_false_iff.
  by eapply tleb_trans.
Qed.

(** The brute-force filter keeps exactly the middle of a partition of the
    input into expired events, window events and events beyond [t]. *)
Lemma filter_window t (gone window pending : list (T * V)) :
  Forall (fun e => expired tleb lower t e = true) gone ->
  Forall (fun e => in_window tleb lower t e = true) window ->
  Forall (fun e => tleb e.1 t = false) pending ->
  List.filter (in_window tleb lower t) (gone ++ window ++ pending) = window.
Proof.
  intros Hgone Hwin Hpend. rewrite !List.filter_app.
  assert (List.filter (in_window tleb lower t) gone = []) as ->.
  { induction Hgone as [|e l He _ IH]; simpl; [done|].
    unfold in_window at 1. unfold expired in He.
    apply negb_true_iff in He. by rewrite He. }
  assert (List.filter (in_window tleb lower t) pending = []) as ->.
  { induction Hpend as [|e l He _ IH]; simpl; [done|].
    unfold in_window at 1. by rewrite He, andb_false_r. }
  rewrite app_nil_r. simpl.
  induction Hwin as [|e l He _ IH]; simpl; [done|]. by rewrite He, IH.
Qed.

(** *** One sampling timestamp *)

Lemma step_spec t input pending dq pending' dq' :
  StronglySorted before input ->
  ready tleb lower vleb is_missing t input pending dq ->
  enter tleb vleb is_missing t pending dq = (pending', dq') ->
  match pop_front_while (expired tleb lower t) dq' with
  | [] => missing
  | front :: _ => front.2
  end = reduce_min vleb is_missing missing
          (List.filter (in_window tleb lower t) input) /\
  forall t',
    tleb t t' = true -> tleb (lower t) (lower t') = true ->
    ready tleb lower vleb is_missing t' input pending'
          (pop_front_while (expired tleb lower t) dq').
Proof.
  intros Hsorted (gone & window & Hinput & Hgone & Hwindow & ->) Hrun.
  apply enter_spec in Hrun as (entered & -> & Hentered & -> & Hhd).
  rewrite <- candidates_app.
  destruct (pop_front_while_split (expired tleb lower t) (window ++ entered))
    as (gone' & Hsplit & Hgone').
  set (window' := pop_front_while (expired tleb lower t) (window ++ entered))
    in *.
  assert (Hinput' : input = (gone ++ gone') ++ window' ++ pending').
  { rewrite Hinput, <- !app_assoc. f_equal. rewrite !app_assoc. f_equal.
    exact Hsplit. }
  assert (Hsorted_mid : StronglySorted before (window ++ entered)).
  { rewrite Hinput in Hsorted. rewrite (app_assoc window) in Hsorted.
    apply StronglySorted_app_1_r in Hsorted.
    by apply StronglySorted_app_1_l in Hsorted. }
  assert (Hsorted_pend : StronglySorted before pending').
  { rewrite Hinput' in Hsorted.
    apply StronglySorted_app_1_r in Hsorted.
    by apply StronglySorted_app_1_r in Hsorted. }
  assert (Hfresh : Forall (fun e => expired tleb lower t e = false) window').
  { by apply sorted_not_expired. }
  assert (Hupto : Forall (fun e => tleb e.1 t = true) window').
  { assert (Forall (fun e => tleb e.1 t = true) (window ++ entered)) as Hall
      by (by apply Forall_app).
    rewrite Hsplit in Hall. by apply Forall_app in Hall as [_ ?]. }
  assert (Hdq : pop_front_while (expired tleb lower t)
                  (candidates (window ++ entered)) = candidates window').
  { rewrite Hsplit, candidates_app.
    destruct (foldl_push_candidates window' (candidates gone'))
      as (dq0 & [rest Hpre] & ->).
    rewrite pop_front_while_all.
    - apply pop_front_while_none. by apply candidates_Forall.
    - pose proof (candidates_Forall _ _ Hgone') as Hc.
      rewrite Hpre in Hc. by apply Forall_app in Hc as [? _]. }
  rewrite Hdq. split.
  - rewrite candidates_front. f_equal. rewrite Hinput'. symmetry.
    apply filter_window.
    + by apply Forall_app.
    + apply Forall_forall. intros e He. unfold in_window.
      rewrite Forall_forall in Hfresh, Hupto.
      specialize (Hfresh e He). specialize (Hupto e He).
      unfold expired in Hfresh. apply negb_false_iff in Hfresh.
      by rewrite Hfresh, Hupto.
    + by apply sorted_beyond.
  - intros t' Htt' Hlow. exists (gone ++ gone'), window'.
    split; [exact Hinput'|]. split; [|split; [|done]].
    + eapply Forall_impl; [apply Forall_app; split; eassumption|].
      intros e He. simpl in He. unfold expired in *.
      apply negb_true_iff in He. apply negb_true_iff.
      destruct (tleb (lower t') e.1) eqn:Hc; [|done].
      by rewrite (tleb_trans _ _ _ Hlow Hc) in He.
    + eapply Forall_impl; [exact Hupto|]. intros e He. simpl in He.
      by eapply tleb_trans.
Qed.

(** *** The whole sampling *)

Lemma sliding_spec input sampling pending dq :
  StronglySorted before input ->
  ascending_by tleb sampling = true ->
  ascending_by tleb (lower <$> sampling) = true ->
  match sampling with
  | [] => True
  | t :: _ => ready tleb lower vleb is_missing t input pending dq
  end ->
  sliding tleb lower vleb is_missing missing pending dq sampling
  = moving_min_naive tleb lower vleb is_missing missing input sampling.
Proof.
  intros Hsorted. revert pending dq.
  induction sampling as [|t sampling IH]; intros pending dq Hasc Hlow Hready;
    [done|].
  simpl. destruct (enter tleb vleb is_missing t pending dq)
    as [pending' dq'] eqn:Hrun.
  destruct (step_spec _ _ _ _ _ _ Hsorted Hready Hrun) as [Hfront Hnext].
  f_equal; [exact Hfront|].
  destruct sampling as [|t' sampling]; [done|].
  simpl in Hasc, Hlow.
  apply andb_true_iff in Hasc as [Htt' Hasc].
  apply andb_true_iff in Hlow as [Hll' Hlow].
  apply IH; [exact Hasc|exact Hlow|]. by apply Hnext.
Qed.

(** The sliding-window evaluation is the brute-force evaluation. *)
Lemma moving_min_sliding_naive input sampling :
  StronglySorted before input ->
  ascending_by tleb sampling = true ->
  ascending_by tleb (lower <$> sampling) = true ->
  moving_min_sliding tleb lower vleb is_missing missing input sampling
  = moving_min_naive tleb lower vleb is_missing missing input sampling.
Proof.
  intros Hsorted Hasc Hlow. apply sliding_spec; try done.
  destruct sampling as [|t sampling]; [done|].
  exists [], []. by repeat split.
Qed.

(** *** The brute-force reducer computes the minimum *)

Hypothesis vleb_total :
  forall a b, is_missing a = false -> is_missing b = false ->
              vleb a b = false -> vleb b a = true.

Lemma vleb_refl a : is_missing a = false -> vleb a a = true.
Proof.
  intros Ha. destruct (vleb a a) eqn:Haa; [done|].
  pose proof (vleb_total a a Ha Ha Haa). congruence.
Qed.

Lemma foldl_min_step_spec (window : list (T * V)) :
  match foldl (min_step vleb is_missing) None window with
  | None => Forall (fun e => is_missing e.2 = true) window
  | Some m =>
      is_missing m = false /\
      (exists e, e ∈ window /\ e.2 = m) /\
      Forall (fun e => is_missing e.2 = false -> vleb m e.2 = true) window
  end.
Proof.
  induction window as [|x window IH] using rev_ind; [constructor|].
  rewrite foldl_app. simpl. unfold min_step at 1.
  destruct (is_missing x.2) eqn:Hx.
  - destruct (foldl _ None window) as [m|].
    + destruct IH as (Hm & (e & He & Hem) & Hall). split; [done|]. split.
      * exists e. split; [|done]. apply elem_of_app. by left.
      * apply Forall_app. split; [done|]. constructor; [|constructor].
        intros Hc. congruence.
    + apply Forall_app. split; [done|]. by repeat constructor.
  - destruct (foldl _ None window) as [m|].
    + destruct IH as (Hm & (e & He & Hem) & Hall).
      destruct (vleb m x.2) eqn:Hmx.
      * split; [done|]. split.
        -- exists e. split; [|done]. apply elem_of_app. by left.
        -- apply Forall_app. split; [done|]. by repeat constructor.
      * split; [done|]. split.
        -- exists x. split; [|done]. apply elem_of_app. right. by left.
        -- apply Forall_app. split.
           ++ eapply Forall_impl; [exact Hall|]. intros e' He' Hmiss.
              simpl in He'. eapply vleb_trans; [|by apply He'].
              by apply vleb_total.
           ++ constructor; [|constructor]. intros _. by apply vleb_refl.
    + split; [done|]. split.
      * exists x. split; [|done]. apply elem_of_app. right. by left.
      * apply Forall_app. split.
        -- eapply Forall_impl; [exact IH|]. intros e' He' Hc.
           simpl in He'. congruence.
        -- constructor; [|constructor]. intros _. by apply vleb_refl.
Qed.

Lemma reduce_min_is_window_min (window : list (T * V)) :
  is_window_min vleb is_missing missing window
                (reduce_min vleb is_missing missing window).
Proof.
  unfold is_window_min, reduce_min.
  pose proof (foldl_min_step_spec window) as H.
  destruct (foldl _ None window) as [m|]; simpl; [by right|by left].
Qed.

End Sliding.

(** *** Ascending buffers *)

Lemma ascending_by_StronglySorted {A} (le : A -> A -> bool) (l : list A) :
  (forall a b c, le a b = true -> le b c = true -> le a c = true) ->
  ascending_by le l = true ->
  StronglySorted (fun a b => le a b = true) l.
Proof.
  intros Htrans. induction l as [|x [|y l] IH]; intros Hasc.
  - constructor.
  - repeat constructor.
  - simpl in Hasc. apply andb_true_iff in Hasc as [Hxy Hasc].
    specialize (IH Hasc). constructor; [done|].
    constructor; [done|]. apply StronglySorted_inv in IH as [_ Hall].
    eapply Forall_impl; [exact Hall|]. intros z Hyz. simpl in Hyz.
    by eapply Htrans.
Qed.

Lemma StronglySorted_zip {A B} (R : A -> A -> Prop) (l : list A)
      (k : list B) :
  StronglySorted R l ->
  StronglySorted (fun a b : A * B => R a.1 b.1) (zip l k).
Proof.
  intros Hs. revert k. induction Hs as [|x l _ IH Hall]; intros k.
  - constructor.
  - destruct k as [|y k]; simpl; [constructor|].
    constructor; [apply IH|]. apply Forall_forall. intros [a b] Hab.
    rewrite Forall_forall in Hall. apply Hall. simpl.
    by eapply elem_of_zip_l.
Qed.

(** *** One feature buffer of one index group *)

(** On ascending input timestamps, ascending sampling timestamps and
    ascending window edges, the sliding evaluation of a buffer is the
    brute-force evaluation. *)
Lemma moving_min_buffer_brute_force w (ts values qs : list float) :
  Np.ascending ts = true ->
  Np.ascending qs = true ->
  Np.ascending ((fun t => PrimFloat.sub t w) <$> qs) = true ->
  moving_min_buffer w ts values qs = moving_min_buffer_naive w ts values qs.
Proof.
  intros Hts Hqs Hlow. unfold moving_min_buffer, moving_min_buffer_naive.
  apply moving_min_sliding_naive; try done.
  - apply FloatOrder.leb_trans.
  - apply FloatOrder.leb_trans.
  - apply (StronglySorted_zip (fun a b => PrimFloat.leb a b = true)).
    apply ascending_by_StronglySorted; [apply FloatOrder.leb_trans|done].
Qed.

Lemma moving_min_buffer_naive_lookup w (ts values qs : list float) i t :
  qs !! i = Some t ->
  exists m,
    moving_min_buffer_naive w ts values qs !! i = Some m /\
    is_window_min PrimFloat.leb PrimFloat.is_nan Np.nan
                  (window_at w ts values t) m.
Proof.
  intros Hi. eexists. split.
  - unfold moving_min_buffer_naive, moving_min_naive.
    rewrite list_lookup_fmap, Hi. reflexivity.
  - apply reduce_min_is_window_min.
    + apply FloatOrder.leb_trans.
    + apply FloatOrder.leb_total.
Qed.

(** The output group of an index group of the input that is evaluated. *)
Lemma call_lookup w input sampling k d qs :
  SinceLast.data input !! k = Some d ->
  sampling_timestamps sampling k d = Some qs ->
  SinceLast.data (MovingMinNumpyImplementation_call w input sampling) !! k
  = Some (eval_group w (length (SinceLast.feature_names input)) (Some d) qs).
Proof.
  intros Hd Hqs. unfold MovingMinNumpyImplementation_call. simpl.
  destruct sampling as [s|]; simpl in Hqs.
  - rewrite map_lookup_imap.
    destruct (SinceLast.data s !! k) as [sd|]; [|discriminate].
    simpl in *. injection Hqs as <-. by rewrite Hd.
  - injection Hqs as <-. by rewrite lookup_fmap, Hd.
Qed.

(** C2. For every index group of the input that is evaluated and every
    feature buffer of the group, on ascending input timestamps, ascending
    sampling timestamps [qs] and ascending window edges [t - w], the
    moving minimum has the timestamps [qs] and one buffer per input
    buffer; the buffer is the brute-force recomputation, and its element
    for the sampling timestamp [t] is the minimum of the non-NaN values
    whose timestamp [t'] has [t - w <= t' <= t] (NaN if there is none).
    With [w = 2], timestamps [1, 2, 3, 5] and values [5, 3, 8, 1], sampled
    at the same timestamps, the buffer is [5, 3, 3, 1]. *)
Theorem moving_min_window_minimum w input sampling k d qs (j : nat) values :
  SinceLast.data input !! k = Some d ->
  sampling_timestamps sampling k d = Some qs ->
  SinceLast.features d !! j = Some values ->
  Np.ascending (SinceLast.timestamps d) = true ->
  Np.ascending qs = true ->
  Np.ascending ((fun t => PrimFloat.sub t w) <$> qs) = true ->
  exists out buffer,
    SinceLast.data (MovingMinNumpyImplementation_call w input sampling) !! k
    = Some out /\
    SinceLast.timestamps out = qs /\
    length (SinceLast.features out) = length (SinceLast.features d) /\
    SinceLast.features out !! j = Some buffer /\
    buffer = moving_min_buffer_naive w (SinceLast.timestamps d) values qs /\
    (forall i t,
        qs !! i = Some t ->
        exists m,
          buffer !! i = Some m /\
          is_window_min PrimFloat.leb PrimFloat.is_nan Np.nan
            (window_at w (SinceLast.timestamps d) values t) m) /\
    (moving_min_buffer 2 [1; 2; 3; 5] [5; 3; 8; 1] [1; 2; 3; 5]
     = [5; 3; 3; 1])%float.
Proof.
  intros Hd Hqs Hj Hts Hasc Hlow.
  exists (eval_group w (length (SinceLast.feature_names input)) (Some d) qs),
         (moving_min_buffer_naive w (SinceLast.timestamps d) values qs).
  split; [by apply call_lookup|]. split; [reflexivity|].
  split; [apply length_fmap|]. split; [|split; [reflexivity|split]].
  - unfold eval_group. simpl. rewrite list_lookup_fmap, Hj. simpl.
    f_equal. by apply moving_min_buffer_brute_force.
  - intros i t Hi. by apply moving_min_buffer_naive_lookup.
  - vm_compute. reflexivity.
Qed.

Lemma moving_min_window_minimum_witness :
  exists out buffer,
    SinceLast.data
      (MovingMinNumpyImplementation_call 2%float
         (flat_feature_event_set [1; 2; 3; 5]%float [5; 3; 8; 1]%float)
         None) !! []
    = Some out /\
    SinceLast.timestamps out = [1; 2; 3; 5]%float /\
    length (SinceLast.features out) = 1%nat /\
    SinceLast.features out !! 0%nat = Some buffer /\
    buffer = (moving_min_buffer_naive 2 [1; 2; 3; 5] [5; 3; 8; 1]
                                      [1; 2; 3; 5])%float /\
    (forall i t,
        [1; 2; 3; 5]%float !! i = Some t ->
        exists m,
          buffer !! i = Some m /\
          is_window_min PrimFloat.leb PrimFloat.is_nan Np.nan
            (window_at 2%float [1; 2; 3; 5]%float [5; 3; 8; 1]%float t)
            m) /\
    (moving_min_buffer 2 [1; 2; 3; 5] [5; 3; 8; 1] [1; 2; 3; 5]
     = [5; 3; 3; 1])%float.
Proof.
  apply (moving_min_window_minimum 2%float
           (flat_feature_event_set [1; 2; 3; 5]%float [5; 3; 8; 1]%float)
           None []
           (SinceLast.mkIndexData [[5; 3; 8; 1]%float] [1; 2; 3; 5]%float)
           [1; 2; 3; 5]%float 0%nat [5; 3; 8; 1]%float).
  - reflexivity.
  - reflexivity.
  - reflexivity.
  - reflexivity.
  - reflexivity.
  - reflexivity.
Defined.

(** *** The output schema *)

Lemma moving_min_unfold check input w sampling st :
  moving_min check input w sampling st =
    if PrimFloat.ltb 0 w then
      match MovingMinOperator check input w sampling st with
      | Raise e => Raise e
      | Ok (operator, st') =>
          match Operator.outputs operator !! "output"%string with
          | Some out => Ok (out, st')
          | None => Raise KeyError
          end
      end
    else Raise InvalidArgument.
Proof.
  unfold moving_min, normalize_duration, mbind, M_bind, lift, getitem.
  destruct (PrimFloat.ltb 0 w); [|reflexivity].
  destruct (MovingMinOperator _ _ _ _ _) as [[op st']|e]; [|reflexivity].
  destruct (Operator.outputs op !! _); reflexivity.
Qed.

(** The operator the window constructor returns has, as output, one
    feature per input feature, with the dtype the subclass gives it. *)
Lemma BaseWindowOperator_init_output check feature_dtype input w sampling st
      op st' :
  BaseWindowOperator_init check feature_dtype input w sampling st
  = Ok (op, st') ->
  exists out,
    Operator.outputs op !! "output"%string = Some out /\
    Feature.dtype <$> Event.features out
    = feature_dtype <$> Event.features input /\
    Feature.name <$> Event.features out
    = Feature.name <$> Event.features input /\
    Event.sampling out
    = Event.sampling (default input sampling).
Proof.
  unfold BaseWindowOperator_init, mbind, M_bind, Operator_init, lift, mret,
    M_ret, raise. simpl.
  destruct sampling as [s|]; simpl.
  - destruct (bool_decide _); [|discriminate]. simpl.
    destruct (check _) as [[]|e]; [|discriminate]. intros [= <- <-].
    eexists. split; [apply lookup_insert_eq|]. simpl.
    rewrite <- !list_fmap_compose. done.
  - destruct (check _) as [[]|e]; [|discriminate]. intros [= <- <-].
    eexists. split; [apply lookup_insert_eq|]. simpl.
    rewrite <- !list_fmap_compose. done.
Qed.

Lemma BaseWindowOperator_init_returns check feature_dtype input w sampling
      st :
  (forall op, check op = Ok tt) ->
  (forall s, sampling = Some s ->
             Sampling.index_levels (Event.sampling s)
             = Sampling.index_levels (Event.sampling input)) ->
  exists op st',
    BaseWindowOperator_init check feature_dtype input w sampling st
    = Ok (op, st').
Proof.
  intros Hcheck Hlevels.
  unfold BaseWindowOperator_init, mbind, M_bind, Operator_init, lift, mret,
    M_ret, raise. simpl.
  destruct sampling as [s|]; simpl.
  - rewrite bool_decide_eq_true_2 by (by apply Hlevels). simpl.
    rewrite Hcheck. by eexists _, _.
  - rewrite Hcheck. by eexists _, _.
Qed.

(** C8. The output node of [moving_min] has exactly one feature per input
    feature, in the same order, each with the dtype (and name) of its
    input feature; [moving_min] returns such a node whenever the window
    length is positive, the index levels of [sampling] are those of
    [input], and the base-class check passes. *)
Theorem moving_min_output_dtypes check input w sampling st :
  (forall out st',
      moving_min check input w sampling st = Ok (out, st') ->
      Forall2 (fun fi fo => Feature.dtype fo = Feature.dtype fi
                            /\ Feature.name fo = Feature.name fi)
              (Event.features input) (Event.features out)) /\
  ((forall op, check op = Ok tt) ->
   PrimFloat.ltb 0 w = true ->
   (forall s, sampling = Some s ->
              Sampling.index_levels (Event.sampling s)
              = Sampling.index_levels (Event.sampling input)) ->
   exists out st', moving_min check input w sampling st = Ok (out, st')).
Proof.
  split.
  - intros out st'. rewrite moving_min_unfold.
    destruct (PrimFloat.ltb 0 w); [|discriminate].
    destruct (MovingMinOperator _ _ _ _ _) as [[op st1]|e] eqn:Hop;
      [|discriminate].
    apply BaseWindowOperator_init_output in Hop
      as (out' & Hout & Hdt & Hnm & _).
    rewrite Hout. intros [= -> _].
    apply Forall2_same_length_lookup. split.
    + pose proof (f_equal length Hdt) as Hlen.
      by rewrite !length_fmap in Hlen.
    + intros i fi fo Hfi Hfo. split.
      * pose proof (f_equal (fun l => l !! i) Hdt) as Heq. simpl in Heq.
        rewrite !list_lookup_fmap, Hfi, Hfo in Heq. by injection Heq.
      * assert ((Feature.name <$> Event.features out) !! i
                = (Feature.name <$> Event.features input) !! i) as Heq
          by (by rewrite Hnm).
        rewrite !list_lookup_fmap, Hfi, Hfo in Heq. by injection Heq.
  - intros Hcheck Hw Hlevels. rewrite moving_min_unfold, Hw.
    destruct (BaseWindowOperator_init_returns check get_feature_dtype input
                w sampling st Hcheck Hlevels) as (op & st' & Hop).
    unfold MovingMinOperator. rewrite Hop.
    apply BaseWindowOperator_init_output in Hop as (out & -> & _).
    by eexists _, _.
Qed.

Lemma moving_min_output_dtypes_witness :
  (forall out st',
      moving_min (fun _ => Ok tt) node_f_g 2%float None (mkAlloc 0 1)
      = Ok (out, st') ->
      Forall2 (fun fi fo => Feature.dtype fo = Feature.dtype fi
                            /\ Feature.name fo = Feature.name fi)
              (Event.features node_f_g) (Event.features out)) /\
  exists out st',
    moving_min (fun _ => Ok tt) node_f_g 2%float None (mkAlloc 0 1)
    = Ok (out, st').
Proof.
  destruct (moving_min_output_dtypes (fun _ => Ok tt) node_f_g 2%float None
              (mkAlloc 0 1)) as [Hshape Hreturns].
  split; [exact Hshape|]. apply Hreturns.
  - reflexivity.
  - reflexivity.
  - intros s [=].
Defined.

End WindowFacts.

(** ** The tabular boundary *)

Module TabularFacts.
Import Py Tabular.

(** C3, on a frame with a tie.  [frame_tie] has two rows in the index group
    [(1,)] with the same timestamp.  The event holds both (timestamps
    [1, 1], buffer [5, 7]); the frame built back from the event has one
    row, with the cell of the second: the rows are not the original rows
    up to order. *)
Theorem round_trip_frame_tie :
  dataframe_to_event frame_tie
  = Ok (mkNumpyEvent
          [([IInt 1], [mkNumpyFeature "a" [F64 5%float; F64 7%float]])]
          (mkNumpySampling ["id"%string] [([IInt 1], [1; 1]%float)])) /\
  round_trip frame_tie
  = Ok (mkDataFrame ["id"%string] ["a"%string]
                    [mkRow [IInt 1] 1%float [F64 7%float]]) /\
  forall df, round_trip frame_tie = Ok df ->
             ~ Permutation (rows frame_tie) (rows df).
Proof.
  assert (Hrt : round_trip frame_tie
                = Ok (mkDataFrame ["id"%string] ["a"%string]
                                  [mkRow [IInt 1] 1%float [F64 7%float]])).
  { vm_compute. reflexivity. }
  split; [vm_compute; reflexivity|]. split; [exact Hrt|].
  intros df Hdf. rewrite Hrt in Hdf. injection Hdf as <-.
  intros Hperm. apply Permutation_length in Hperm. discriminate.
Qed.

(** *** Frames without ties *)

Lemma unique_step_spec {A} `{EqDecision A} (l seen : list A) :
  NoDup seen ->
  NoDup (foldl (fun seen x => if decide (x ∈ seen) then seen
                              else seen ++ [x]) seen l) /\
  forall x,
    x ∈ foldl (fun seen x => if decide (x ∈ seen) then seen
                             else seen ++ [x]) seen l
    <-> x ∈ seen \/ x ∈ l.
Proof.
  revert seen. induction l as [|y l IH]; intros seen Hnd; simpl.
  - split; [done|]. intros x. rewrite elem_of_nil. tauto.
  - destruct (decide (y ∈ seen)) as [Hy|Hy].
    + destruct (IH seen Hnd) as [Hnd' Hin]. split; [done|].
      intros x. rewrite Hin, elem_of_cons. intuition (subst; auto).
    + destruct (IH (seen ++ [y])) as [Hnd' Hin].
      { apply NoDup_app. split; [done|]. split; [|apply NoDup_singleton].
        intros x Hx ->%list_elem_of_singleton. done. }
      split; [done|]. intros x.
      rewrite Hin, elem_of_app, list_elem_of_singleton, elem_of_cons.
      tauto.
Qed.

Lemma unique_NoDup {A} `{EqDecision A} (l : list A) : NoDup (unique l).
Proof. apply unique_step_spec. constructor. Qed.

Lemma elem_of_unique {A} `{EqDecision A} (l : list A) x :
  x ∈ unique l <-> x ∈ l.
Proof.
  unfold unique. destruct (unique_step_spec l [] (NoDup_nil_2)) as [_ Hin].
  rewrite Hin, elem_of_nil. tauto.
Qed.

Lemma odict_set_fresh {K V} `{EqDecision K} (k : K) (v : V) d :
  k ∉ d.*1 -> odict_set k v d = d ++ [(k, v)].
Proof.
  induction d as [|[k' v'] d IH]; simpl; [done|]. intros Hk.
  apply not_elem_of_cons in Hk as [Hne Hk].
  destruct (decide (k' = k)); [done|]. by rewrite IH.
Qed.

Lemma odict_get_fmap {K V} `{EqDecision K} (f : K -> V) (ks : list K) k :
  k ∈ ks -> odict_get k ((fun k => (k, f k)) <$> ks) = Some (f k).
Proof.
  induction ks as [|k' ks IH]; simpl.
  - intros Hk. by apply elem_of_nil in Hk.
  - intros Hk. destruct (decide (k' = k)) as [->|Hne]; [done|].
    apply elem_of_cons in Hk as [->|Hk]; [done|]. by apply IH.
Qed.

Lemma filter_eq_absent (l : list string) (c : string) :
  c ∉ l -> filter (fun c' => c' = c) l = [].
Proof.
  induction l as [|x l IH]; [done|]. rewrite not_elem_of_cons.
  intros [Hne Hc]. rewrite filter_cons.
  destruct (decide (x = c)); [congruence|]. by apply IH.
Qed.

(** A name of a list without duplicates occurs once in it. *)
Lemma filter_eq_NoDup (l : list string) (c : string) :
  NoDup l -> c ∈ l -> length (filter (fun c' => c' = c) l) = 1%nat.
Proof.
  induction l as [|x l IH]; intros Hnd Hc; [by apply elem_of_nil in Hc|].
  apply NoDup_cons in Hnd as [Hx Hnd]. rewrite filter_cons.
  destruct (decide (x = c)) as [->|Hne].
  - simpl. by rewrite filter_eq_absent.
  - apply IH; [done|]. by apply elem_of_cons in Hc as [->|Hc].
Qed.

Lemma supported_columns_lookup df j c :
  supported_columns df = true -> columns df !! j = Some c ->
  in_DTYPE_MAPPING (dtype_of (column_to_numpy j (rows df))) = true.
Proof.
  unfold supported_columns. rewrite forallb_forall. intros Hall Hj.
  apply Hall, in_seq. apply lookup_lt_Some in Hj. lia.
Qed.

(** On a frame whose columns have pairwise different names and supported
    dtypes, the loop over the columns builds one feature per column. *)
Lemma append_feature_loop df group (cols : list string) (n : nat)
      (acc : list NumpyFeature) :
  NoDup (columns df) ->
  supported_columns df = true ->
  (forall j c, cols !! j = Some c -> columns df !! (n + j)%nat = Some c) ->
  for_each (append_feature df group)
           (imap (fun j c => ((n + j)%nat, c)) cols) acc
  = Ok (acc ++ imap (fun j c =>
                       mkNumpyFeature c (column_to_numpy (n + j) group))
                    cols).
Proof.
  intros Hnd Hsup. revert n acc.
  induction cols as [|c cols IH]; intros n acc Hcols; simpl.
  - by rewrite app_nil_r.
  - assert (Hc : columns df !! (n + 0)%nat = Some c) by (by apply Hcols).
    unfold append_feature at 1, column_array. simpl.
    rewrite bool_decide_eq_true_2.
    2:{ apply filter_eq_NoDup; [done|]. by eapply list_elem_of_lookup_2. }
    unfold NumpyFeature_init.
    rewrite (supported_columns_lookup df _ c Hsup Hc).
    change (?a ≫= ?f) with (bind a f). unfold bind.
    rewrite (imap_ext _ (fun j c' => ((S n + j)%nat, c'))).
    2:{ intros j c' _. simpl. f_equal. lia. }
    rewrite IH.
    + rewrite <- app_assoc. simpl. do 3 f_equal.
      apply imap_ext. intros j c' _. simpl. do 2 f_equal. lia.
    + intros j c' Hj. replace (S n + j)%nat with (n + S j)%nat by lia.
      by apply Hcols.
Qed.

Lemma append_features_ok df group :
  NoDup (columns df) ->
  supported_columns df = true ->
  for_each (append_feature df group) (imap pair (columns df)) []
  = Ok (imap (fun j c => mkNumpyFeature c (column_to_numpy j group))
             (columns df)).
Proof.
  intros Hnd Hsup.
  pose proof (append_feature_loop df group (columns df) 0 [] Hnd Hsup) as H.
  simpl in H. rewrite (imap_ext _ pair) in H by done. apply H. done.
Qed.

(** The loop of [dataframe_to_event] adds one entry per distinct index
    value, in order. *)
Lemma to_event_loop df ks sampling data :
  index_names df <> [] ->
  NoDup (columns df) ->
  supported_columns df = true ->
  NoDup ks ->
  (forall k, k ∈ ks -> (k ∉ sampling.*1) /\ (k ∉ data.*1)) ->
  for_each (to_event_body df) ks (sampling, data)
  = Ok (sampling ++ ((fun k => (k, group_timestamps df k)) <$> ks),
        data ++ ((fun k => (k, group_features df k)) <$> ks)).
Proof.
  intros Hnames Hcols Hsup. revert sampling data.
  induction ks as [|k ks IH]; intros sampling data Hnd Hfresh; simpl.
  - by rewrite !app_nil_r.
  - apply NoDup_cons in Hnd as [Hk Hnd].
    rewrite (bool_decide_eq_false_2 _ Hnames).
    destruct (Hfresh k) as [Hs Hd]; [by left|].
    rewrite append_features_ok by done. simpl.
    rewrite odict_set_fresh by done. rewrite odict_set_fresh by done.
    simpl. fold (group_timestamps df k). fold (group_features df k).
    rewrite IH; [by rewrite <- !app_assoc|done|].
    intros k' Hk'. destruct (Hfresh k') as [Hs' Hd']; [by right|].
    rewrite !fmap_app, !not_elem_of_app. simpl.
    rewrite !list_elem_of_singleton. split; (split; [done|]);
      intros ->; done.
Qed.

Lemma dataframe_to_event_ok df :
  index_names df <> [] ->
  NoDup (columns df) ->
  supported_columns df = true ->
  dataframe_to_event df
  = Ok (mkNumpyEvent
          ((fun k => (k, group_features df k))
             <$> unique (row_index <$> rows df))
          (mkNumpySampling
             (index_names df)
             ((fun k => (k, group_timestamps df k))
                <$> unique (row_index <$> rows df)))).
Proof.
  intros Hnames Hcols Hsup. unfold dataframe_to_event.
  rewrite to_event_loop; [done|done|done|done|apply unique_NoDup|].
  intros k _. split; apply not_elem_of_nil.
Qed.

(** Reading position [i] of the buffers of a group gives back the cells
    of row [i] of the group. *)
Lemma cells_at_columns (group : list Row) (r : Row) (i : nat)
      (cols : list string) (n : nat) :
  group !! i = Some r ->
  (n + length cols = length (row_cells r))%nat ->
  cells_at i (imap (fun j column_name =>
                      mkNumpyFeature column_name
                                     (column_to_numpy (n + j) group)) cols)
  = Ok (drop n (row_cells r)).
Proof.
  intros Hr. revert n. induction cols as [|c cols IH]; intros n Hlen; simpl.
  - rewrite drop_ge; [done|]. simpl in Hlen. lia.
  - simpl in Hlen. unfold column_to_numpy at 1.
    rewrite list_lookup_fmap, Hr. simpl.
    destruct (row_cells r !! (n + 0)%nat) as [v|] eqn:Hv.
    2:{ apply lookup_ge_None in Hv. lia. }
    simpl.
    rewrite (imap_ext _ (fun j column_name =>
                           mkNumpyFeature column_name
                             (column_to_numpy (S n + j) group))).
    2:{ intros j c' _. simpl. do 2 f_equal. lia. }
    rewrite IH by lia. simpl. f_equal.
    rewrite Nat.add_0_r in Hv. symmetry. by apply drop_S.
Qed.

Lemma cells_at_group df k (r : Row) (i : nat) :
  get_group df k !! i = Some r ->
  length (row_cells r) = length (columns df) ->
  cells_at i (group_features df k) = Ok (row_cells r).
Proof.
  intros Hr Hlen. unfold group_features.
  pose proof (cells_at_columns _ r i (columns df) 0 Hr) as H.
  simpl in H. apply H. lia.
Qed.

(** *** Tie-free lists of rows *)

Lemma no_tie_sym a b : no_tie a b = no_tie b a.
Proof. unfold no_tie. apply andb_comm. Qed.

Lemma tie_free_Permutation (l l' : list Row) :
  Permutation l l' -> tie_free l = true -> tie_free l' = true.
Proof.
  induction 1 as [|x l l' Hperm IH|x y l|l l' l'' _ IH1 _ IH2]; simpl.
  - done.
  - rewrite !andb_true_iff, !forallb_forall. intros [Hx Hl].
    split; [|by apply IH]. intros r Hr. apply Hx.
    eapply Permutation_in; [symmetry; exact Hperm|exact Hr].
  - rewrite !andb_true_iff. intros [[Hyx Hy] [Hx Hl]].
    rewrite no_tie_sym. done.
  - intros H. by apply IH2, IH1.
Qed.

Lemma tie_free_app_l (a b : list Row) :
  tie_free (a ++ b) = true -> tie_free a = true.
Proof.
  induction a as [|r a IH]; simpl; [done|].
  rewrite !andb_true_iff, forallb_app, andb_true_iff.
  intros [[Ha _] Hab]. split; [done|]. by apply IH.
Qed.

(** In a tie-free list no earlier row has the label of a later row. *)
Lemma tie_free_no_label (a b : list Row) (r : Row) :
  tie_free (a ++ r :: b) = true ->
  existsb (same_label (row_index r) (row_timestamp r)) a = false.
Proof.
  induction a as [|r' a IH]; simpl; [done|].
  rewrite !andb_true_iff, forallb_app, andb_true_iff. simpl.
  rewrite andb_true_iff. intros [[_ [Hrr' _]] Hab].
  rewrite (IH Hab), orb_false_r. unfold no_tie in Hrr'.
  apply andb_true_iff in Hrr' as [_ Hrr'].
  by apply negb_true_iff in Hrr'.
Qed.

(** *** The loops of [event_to_dataframe] *)

(** The inner loop adds the remaining rows of the group, one by one: on
    tie-free rows no assignment finds its label in the frame. *)
Lemma timestamp_loop df k df_features (g1 g2 acc : list Row) :
  get_group df k = g1 ++ g2 ->
  length df_features = length (columns df) ->
  Forall (fun r => length (row_cells r) = length (columns df)) (rows df) ->
  tie_free (acc ++ g2) = true ->
  for_each (timestamp_body df_features k (group_features df k))
           (imap (fun i t => ((length g1 + i)%nat, t)) (row_timestamp <$> g2))
           acc
  = Ok (acc ++ g2).
Proof.
  intros Hgroup Hfeat Hwf. revert g1 acc Hgroup.
  induction g2 as [|r g2 IH]; intros g1 acc Hgroup Htie; simpl.
  - by rewrite app_nil_r.
  - assert (Hin : r ∈ get_group df k).
    { rewrite Hgroup. apply elem_of_app. right. by left. }
    unfold get_group in Hin. apply list_elem_of_In, filter_In in Hin.
    destruct Hin as [Hin Hk]. apply bool_decide_eq_true_1 in Hk.
    rewrite (cells_at_group df k r).
    2:{ rewrite Hgroup, Nat.add_0_r.
        by rewrite lookup_app_r, Nat.sub_diag by lia. }
    2:{ rewrite Forall_forall in Hwf. apply Hwf.
        by apply list_elem_of_In. }
    simpl. rewrite bool_decide_eq_true_2.
    2:{ rewrite Hfeat. rewrite Forall_forall in Hwf. apply Hwf.
        by apply list_elem_of_In. }
    unfold loc_set. rewrite <- Hk.
    rewrite (tie_free_no_label acc g2 r Htie).
    assert (mkRow (row_index r) (row_timestamp r) (row_cells r) = r) as ->
      by (by destruct r).
    rewrite (imap_ext _ (fun i t => ((length (g1 ++ [r]) + i)%nat, t))).
    2:{ intros i t _. simpl. f_equal. rewrite length_app. simpl. lia. }
    rewrite Hk. unfold bind.
    replace (acc ++ r :: g2) with ((acc ++ [r]) ++ g2)
      by (by rewrite <- app_assoc).
    apply IH; by rewrite <- app_assoc.
Qed.

(** The outer loop adds the groups, one after the other. *)
Lemma index_loop df event (ks_all ks : list index_key) (acc : list Row) :
  sampling_data (sampling event)
  = (fun k => (k, group_timestamps df k)) <$> ks_all ->
  length (feature_names event) = length (columns df) ->
  Forall (fun r => length (row_cells r) = length (columns df)) (rows df) ->
  (forall k, k ∈ ks -> k ∈ ks_all) ->
  tie_free (acc ++ concat (get_group df <$> ks)) = true ->
  for_each (index_body event) ((fun k => (k, group_features df k)) <$> ks)
           acc
  = Ok (acc ++ concat (get_group df <$> ks)).
Proof.
  intros Hsampling Hfeat Hwf. revert acc.
  induction ks as [|k ks IH]; intros acc Hsub Htie; simpl.
  - by rewrite app_nil_r.
  - rewrite Hsampling, odict_get_fmap by (apply Hsub; by left).
    simpl in Htie. rewrite app_assoc in Htie.
    pose proof (timestamp_loop df k (feature_names event) []
                  (get_group df k) acc eq_refl Hfeat Hwf
                  (tie_free_app_l _ _ Htie)) as Hinner.
    rewrite (imap_ext _ pair) in Hinner by done.
    unfold group_timestamps. rewrite Hinner. unfold bind.
    rewrite IH; [by rewrite <- app_assoc| |done].
    intros k' Hk'. apply Hsub. by right.
Qed.

(** *** The groups of a frame are its rows *)

Lemma filter_key_none (ks : list index_key) :
  concat ((fun k : index_key =>
             List.filter (fun r : Row => bool_decide (row_index r = k)) [])
            <$> ks) = [].
Proof. induction ks as [|k ks IH]; simpl; [done|exact IH]. Qed.

Lemma filter_key_other (ks : list index_key) (r : Row) (rs : list Row) :
  row_index r ∉ ks ->
  (fun k : index_key =>
     List.filter (fun r : Row => bool_decide (row_index r = k)) (r :: rs))
    <$> ks
  = (fun k : index_key =>
       List.filter (fun r : Row => bool_decide (row_index r = k)) rs)
      <$> ks.
Proof.
  intros Hr. apply list_fmap_ext. intros i k Hk. simpl.
  rewrite bool_decide_eq_false_2; [done|]. intros <-. apply Hr.
  by eapply list_elem_of_lookup_2.
Qed.

Lemma groups_Permutation (ks : list index_key) (rs : list Row) :
  NoDup ks ->
  (forall r, r ∈ rs -> row_index r ∈ ks) ->
  Permutation
    (concat ((fun k : index_key =>
                List.filter (fun r : Row => bool_decide (row_index r = k)) rs)
               <$> ks))
    rs.
Proof.
  intros Hnd. induction rs as [|r rs IH]; intros Hcover.
  - by rewrite filter_key_none.
  - destruct (list_elem_of_split ks (row_index r)) as (ks1 & ks2 & Hks);
      [apply Hcover; by left|].
    rewrite Hks in Hnd. apply NoDup_app in Hnd as (_ & Hks1 & Hnd2).
    apply NoDup_cons in Hnd2 as [Hks2 _].
    assert (IH' := IH (fun r' Hr' => Hcover r' (list_elem_of_further _ _ _ Hr'))).
    rewrite Hks in IH' |- *. rewrite !fmap_app, !fmap_cons in IH' |- *.
    rewrite !concat_app in IH' |- *. rewrite !concat_cons in IH' |- *.
    rewrite !filter_key_other.
    + simpl. rewrite bool_decide_eq_true_2 by done. simpl.
      rewrite <- Permutation_middle. by constructor.
    + done.
    + intros Hin. by apply (Hks1 (row_index r)); [|left].
Qed.

Lemma grouped_Permutation df : Permutation (grouped df) (rows df).
Proof.
  unfold grouped, get_group. apply groups_Permutation.
  - apply unique_NoDup.
  - intros r Hr. apply elem_of_unique. by apply list_elem_of_fmap_2.
Qed.

(** *** The round trip *)

Lemma name_group_features df k : name <$> group_features df k = columns df.
Proof.
  unfold group_features. rewrite fmap_imap.
  rewrite (imap_ext _ (const id)) by done.
  by rewrite imap_const, list_fmap_id.
Qed.

(** On a frame with at least one index level and one row, whose columns
    have pairwise different names and supported dtypes, and whose rows have
    one cell per column and do not tie, the conversion to an event and
    back returns the rows of the frame, group after group: the original
    rows up to order. *)
Lemma round_trip_tie_free df :
  index_names df <> [] ->
  NoDup (columns df) ->
  supported_columns df = true ->
  rows df <> [] ->
  Forall (fun r => length (row_cells r) = length (columns df)) (rows df) ->
  tie_free (rows df) = true ->
  round_trip df
  = Ok (mkDataFrame (index_names df) (columns df) (grouped df)) /\
  Permutation (grouped df) (rows df).
Proof.
  intros Hnames Hcols Hsup Hrows Hwf Htie.
  split; [|apply grouped_Permutation].
  unfold round_trip. rewrite dataframe_to_event_ok by done.
  change (?a ≫= ?f) with (bind a f). unfold bind.
  destruct (unique (row_index <$> rows df)) as [|k0 ks] eqn:Hkeys.
  { destruct (rows df) as [|r rs] eqn:Hr; [done|].
    assert (row_index r ∈ unique (row_index <$> r :: rs)) as Hin
      by (apply elem_of_unique; by left).
    rewrite Hkeys in Hin. by apply elem_of_nil in Hin. }
  set (event := mkNumpyEvent _ _).
  assert (Hfn : feature_names event = columns df).
  { unfold feature_names, event. simpl. apply name_group_features. }
  assert (Hgroup : get_group df k0 <> []).
  { assert (k0 ∈ row_index <$> rows df) as Hk0.
    { apply elem_of_unique. rewrite Hkeys. by left. }
    apply list_elem_of_fmap in Hk0 as (r & -> & Hr).
    intros Hnil. assert (r ∈ get_group df (row_index r)) as Hin.
    { unfold get_group. apply list_elem_of_In, filter_In.
      split; [by apply list_elem_of_In|by apply bool_decide_eq_true_2]. }
    rewrite Hnil in Hin. by apply elem_of_nil in Hin. }
  assert (Hloop : for_each (index_body event) (event_data event) []
                  = Ok (grouped df)).
  { change (event_data event)
      with ((fun k => (k, group_features df k)) <$> k0 :: ks).
    rewrite (index_loop df event (k0 :: ks) (k0 :: ks) []).
    - unfold grouped. by rewrite Hkeys.
    - done.
    - by rewrite Hfn.
    - done.
    - done.
    - rewrite app_nil_l, <- Hkeys. fold (grouped df).
      eapply tie_free_Permutation; [|exact Htie]. symmetry.
      apply grouped_Permutation. }
  unfold event_to_dataframe. rewrite Hloop.
  change (?a ≫= ?f) with (bind a f). unfold bind.
  change (event_data event)
    with ((fun k => (k, group_features df k)) <$> k0 :: ks).
  simpl.
  assert (forallb (fun feature => bool_decide (data feature <> []))
                  (group_features df k0) = true) as ->.
  { apply forallb_forall. intros f Hf. apply bool_decide_eq_true_2.
    apply list_elem_of_In in Hf. unfold group_features in Hf.
    apply elem_of_lookup_imap_1 in Hf as (j & c & -> & _). simpl.
    unfold column_to_numpy. by destruct (get_group df k0). }
  by rewrite Hfn.
Qed.

(** [frame_two_groups] is such a frame. *)
Lemma round_trip_frame_two_groups :
  round_trip frame_two_groups
  = Ok (mkDataFrame (index_names frame_two_groups)
                    (columns frame_two_groups) (grouped frame_two_groups)) /\
  Permutation (grouped frame_two_groups) (rows frame_two_groups).
Proof.
  apply round_trip_tie_free.
  - done.
  - apply NoDup_cons. split; [|apply NoDup_singleton].
    by intros Hin%list_elem_of_singleton.
  - reflexivity.
  - done.
  - by repeat constructor.
  - reflexivity.
Qed.

(** An empty frame is converted to an event without groups, which
    [event_to_dataframe] rejects. *)
Lemma round_trip_empty names cols :
  names <> [] -> round_trip (mkDataFrame names cols []) = Raise IndexError.
Proof. reflexivity. Qed.

End TabularFacts.

(** * Further properties of the embedded code *)

(** ** Since-last: when the call returns, and what it returns *)

Module SinceLastExtra.
Import Py SinceLast SinceLastFacts.

Section Groups.
Variable native : list float -> list float -> list float.

(** A call whose operator disagrees with the presence of a sampling raises
    [AssertionError] before it looks at a group. *)
Lemma call_flag_mismatch operator input sampling :
  has_sampling operator <> bool_decide (is_Some sampling) ->
  call native operator input sampling = Raise AssertionError.
Proof.
  intros Hne. unfold call.
  destruct (has_sampling operator), (bool_decide (is_Some sampling));
    simpl; done.
Qed.

(** A call whose operator agrees with the presence of a sampling returns
    or raises [KeyError], by the index groups alone. *)
Lemma call_flag_match operator input sampling :
  has_sampling operator = bool_decide (is_Some sampling) ->
  match sampling with
  | None => is_ok (call native operator input sampling) = true
  | Some s =>
      if bool_decide (dom (data input) ⊆ dom (data s))
      then is_ok (call native operator input sampling) = true
      else call native operator input sampling = Raise KeyError
  end.
Proof.
  intros Heq. unfold call. rewrite Heq.
  assert (negb (eqb (bool_decide (is_Some sampling))
                    (bool_decide (is_Some sampling))) = false) as ->
    by (by destruct (bool_decide _)).
  destruct sampling as [s|].
  - destruct (decide (dom (data input) ⊆ dom (data s))) as [Hsub|Hsub].
    + rewrite (bool_decide_eq_true_2 _ Hsub).
      edestruct (for_each_loop_body_ok native (Some s) (iterindex input))
        as [out ->]; [|done].
      intros s' k [= <-] Hk. apply elem_of_dom, Hsub, elem_of_dom.
      apply list_elem_of_fmap in Hk as ([k' d] & -> & Hin).
      apply elem_of_map_to_list in Hin. by eexists.
    + rewrite (bool_decide_eq_false_2 _ Hsub).
      destruct (for_each _ _ _) as [out|e] eqn:Hrun.
      * exfalso. apply Hsub. intros k Hk. apply elem_of_dom.
        apply elem_of_dom in Hk as [d Hd].
        eapply (for_each_loop_body_keys native); [exact Hrun|].
        apply list_elem_of_fmap. exists (k, d). split; [done|].
        by apply elem_of_map_to_list.
      * apply for_each_loop_body_raise in Hrun as ->. done.
  - edestruct (for_each_loop_body_ok native None (iterindex input))
      as [out ->]; [|done].
    intros s k [=].
Qed.

(** X1. The call raises [AssertionError] exactly when the operator's
    [has_sampling] disagrees with the presence of a sampling, whatever the
    groups are; when they agree, the call without sampling returns, and
    the call with a sampling returns if every index group of the input is
    a group of the sampling and raises [KeyError] otherwise. *)
Theorem call_result_cases operator input sampling :
  (has_sampling operator <> bool_decide (is_Some sampling) ->
   call native operator input sampling = Raise AssertionError) /\
  (has_sampling operator = bool_decide (is_Some sampling) ->
   match sampling with
   | None => is_ok (call native operator input sampling) = true
   | Some s =>
       if bool_decide (dom (data input) ⊆ dom (data s))
       then is_ok (call native operator input sampling) = true
       else call native operator input sampling = Raise KeyError
   end).
Proof.
  split; [apply call_flag_mismatch|apply call_flag_match].
Qed.

(** X2. A call that returns yields one event set, under the key
    ["output"], with the single feature name ["since_last"], the index
    names and the timestamp flag of the input (also when a sampling is
    given), exactly the index groups of the input, and one feature buffer
    in every group. *)
Theorem call_output_shape operator input sampling outs :
  call native operator input sampling = Ok outs ->
  exists out,
    outs = {[ "output"%string := out ]} /\
    feature_names out = ["since_last"%string] /\
    index_names out = index_names input /\
    is_unix_timestamp out = is_unix_timestamp input /\
    dom (data out) = dom (data input) /\
    forall k d, data out !! k = Some d -> length (features d) = 1%nat.
Proof.
  intros Hcall. apply call_ok in Hcall as (out & -> & Hf & Hi & Hu & Hlk).
  exists out. repeat (split; [done|]). split.
  - apply set_eq. intros k. rewrite !elem_of_dom, Hlk.
    destruct (data input !! k); simpl; split; intros [? ?]; by eauto.
  - intros k d. rewrite Hlk. destruct (data input !! k) as [d0|]; [|done].
    simpl. intros [= <-]. unfold eval_group.
    by destruct (sampling_of sampling k).
Qed.

(** X3. The call reads the input through its timestamps, index names and
    timestamp flag only: two inputs that agree on these (their feature
    buffers and feature names may differ) give the same result, be it an
    output or an exception. *)
Theorem call_ignores_features operator in1 in2 sampling :
  (forall k, timestamps <$> data in1 !! k = timestamps <$> data in2 !! k) ->
  index_names in1 = index_names in2 ->
  is_unix_timestamp in1 = is_unix_timestamp in2 ->
  call native operator in1 sampling = call native operator in2 sampling.
Proof.
  intros Hts Hin Hunix.
  assert (Hdom : dom (data in1) = dom (data in2)).
  { apply set_eq. intros k. rewrite !elem_of_dom. specialize (Hts k).
    destruct (data in1 !! k), (data in2 !! k); simpl in Hts; try done;
      split; intros [? ?]; by eauto. }
  destruct (decide (has_sampling operator = bool_decide (is_Some sampling)))
    as [Heq|Hne].
  2:{ rewrite (call_flag_mismatch operator in1 sampling Hne).
      by rewrite (call_flag_mismatch operator in2 sampling Hne). }
  pose proof (call_flag_match operator in1 sampling Heq) as H1.
  pose proof (call_flag_match operator in2 sampling Heq) as H2.
  assert (Hok : is_ok (call native operator in1 sampling) = true ->
                is_ok (call native operator in2 sampling) = true ->
                call native operator in1 sampling
                = call native operator in2 sampling).
  { destruct (call native operator in1 sampling) as [outs1|] eqn:Hc1;
      [|done].
    destruct (call native operator in2 sampling) as [outs2|] eqn:Hc2;
      [|done].
    intros _ _.
    apply call_ok in Hc1 as (o1 & -> & Hf1 & Hi1 & Hu1 & Hl1).
    apply call_ok in Hc2 as (o2 & -> & Hf2 & Hi2 & Hu2 & Hl2).
    do 2 f_equal. destruct o1 as [d1 f1 i1 u1], o2 as [d2 f2 i2 u2].
    simpl in *. f_equal; try congruence.
    apply map_eq. intros k. by rewrite Hl1, Hl2, Hts. }
  destruct sampling as [s|]; [|by apply Hok].
  rewrite Hdom in H1.
  destruct (bool_decide (dom (data in2) ⊆ dom (data s)));
    [by apply Hok|by rewrite H1, H2].
Qed.

(** X4. Without sampling, the output of a group that has at least one
    timestamp is never jagged: its one buffer has as many elements as the
    group has timestamps, the first of them NaN.  (Nothing is stated for a
    group without timestamps, where the buffer built is longer than the
    timestamps and the constructor of [IndexData] decides.) *)
Theorem call_no_sampling_lengths operator input outs k d :
  call native operator input None = Ok outs ->
  data input !! k = Some d ->
  timestamps d <> [] ->
  exists values,
    output_group (Ok outs) k = Some (mkIndexData [values] (timestamps d)) /\
    length values = length (timestamps d) /\
    values !! 0%nat = Some Np.nan.
Proof.
  intros Hcall Hd Hne.
  apply call_ok in Hcall as (out & -> & _ & _ & _ & Hlk).
  exists (Np.nan :: Np.diff (timestamps d)). split; [|split].
  - simpl. rewrite lookup_singleton_eq. simpl. by rewrite Hlk, Hd.
  - simpl. rewrite diff_length. by destruct (timestamps d).
  - done.
Qed.

End Groups.

Lemma call_output_shape_witness :
  exists out,
    feature_names out = ["since_last"%string] /\
    dom (data out) = dom (data group_1).
Proof.
  destruct (call since_last_cc (mkSinceLast false) group_1 None) as [outs|e] eqn:Hc.
  - destruct (call_output_shape since_last_cc _ _ _ _ Hc) as (out & _ & Hf & _ & _ & Hd & _).
    by exists out.
  - exfalso. destruct (call_no_sampling_ok since_last_cc (mkSinceLast false) group_1
                         eq_refl) as [outs Houts]. congruence.
Defined.

Lemma call_ignores_features_witness :
  call since_last_cc (mkSinceLast false) (flat_event_set [1; 4]%float) None
  = call since_last_cc (mkSinceLast false)
         (mkEventSet {[ [] := mkIndexData [[7; 8]%float] [1; 4]%float ]}
                     ["f"%string] [] false) None.
Proof.
  apply (call_ignores_features since_last_cc); [|done|done].
  intros k. unfold flat_event_set. simpl.
  destruct (decide (k = [])) as [->|Hk].
  - by rewrite !lookup_singleton_eq.
  - by rewrite !lookup_singleton_ne.
Defined.

Lemma call_no_sampling_lengths_witness :
  exists outs values,
    call since_last_cc (mkSinceLast false) (flat_event_set [1; 4]%float) None
    = Ok outs /\
    output_group (Ok outs) []
    = Some (mkIndexData [values] [1; 4]%float) /\
    length values = 2%nat /\
    values !! 0%nat = Some Np.nan.
Proof.
  destruct (call_no_sampling_ok since_last_cc (mkSinceLast false)
              (flat_event_set [1; 4]%float) eq_refl) as [outs Hc].
  destruct (call_no_sampling_lengths since_last_cc (mkSinceLast false)
              (flat_event_set [1; 4]%float) outs []
              (mkIndexData [] [1; 4]%float) Hc)
    as (values & Hout & Hlen & Hnan).
  - apply lookup_singleton_eq.
  - done.
  - by exists outs, values.
Defined.

Lemma call_result_cases_witness :
  is_ok (call since_last_cc (mkSinceLast true) group_1
              (Some sampling_1_and_2)) = true.
Proof.
  pose proof (proj2 (call_result_cases since_last_cc (mkSinceLast true)
                       group_1 (Some sampling_1_and_2)) eq_refl) as H.
  cbv beta iota in H.
  assert (bool_decide (dom (data group_1) ⊆ dom (data sampling_1_and_2))
          = true) as Hsub by (vm_compute; reflexivity).
  rewrite Hsub in H. exact H.
Defined.

End SinceLastExtra.

(** ** Rename: what a rename keeps, allows and builds *)

Module RenameExtra.
Import Py Core Rename RenameFacts.

(** Past the validation of its arguments, the result of a rename is the
    verdict of [self.check()] on the operator it has wired. *)
Lemma rename_checked check event features index st sf si :
  features_dict event features = Ok sf ->
  index_dict (Event.index_names event) index = Ok si ->
  rename check event features index st
  = checked check (wired st event index sf si).1
            (wired_output st event index sf si,
             (wired st event index sf si).2).
Proof.
  intros Hf Hi. rewrite rename_unfold, RenameOperator_init_unfold.
  rewrite Hf, Hi. unfold checked. destruct (check _) as [[]|e]; [|done].
  rewrite (surjective_pairing (wired st event index sf si)).
  by rewrite wired_outputs.
Qed.

(** A rename dict without defect is accepted as it is. *)
Lemma check_rename_dict_accepts d names dict_name :
  ~ arg_defect names (ArgDict d) ->
  check_rename_dict d names dict_name = Ok d.
Proof.
  intros Hgood.
  destruct (check_rename_dict d names dict_name) as [d'|e] eqn:Hc.
  - by apply check_rename_dict_ok in Hc as ->.
  - exfalso. apply Hgood. apply (check_rename_dict_raise_iff d names dict_name).
    by exists e.
Qed.

Lemma names_wired_output st event index sf si :
  Feature.name <$> Event.features (wired_output st event index sf si)
  = renamed sf <$> (Feature.name <$> Event.features event).
Proof.
  unfold wired_output, output_features. simpl.
  by rewrite <- !list_fmap_compose.
Qed.



(** X6. The validation of a rename does not look for collisions: renaming
    the feature [a] to the name [c] of another feature of the node passes
    it, and the constructor reaches [self.check()] with an output node
    that has two features of the same name; the call returns this node if
    the check returns, and raises the exception of the check otherwise. *)
Theorem rename_allows_duplicate_names event (a c : string) st :
  a <> c -> c <> ""%string ->
  a ∈ Feature.name <$> Event.features event ->
  c ∈ Feature.name <$> Event.features event ->
  exists operator out st',
    (forall check,
        rename check event (ArgDict {[ a := PStr c ]}) ArgNone st
        = checked check operator (out, st')) /\
    Operator.outputs operator !! "event"%string = Some out /\
    ~ NoDup (Feature.name <$> Event.features out).
Proof.
  intros Hac Hc Ha Hcin. eexists _, _, _. split; [|split].
  - intros check. apply rename_checked; [|done]. simpl.
    by apply check_rename_dict_singleton.
  - apply wired_outputs.
  - rewrite names_wired_output. intros Hnd.
    apply list_elem_of_lookup in Ha as [i Hi].
    apply list_elem_of_lookup in Hcin as [j Hj].
    assert (i = j) as ->.
    { eapply NoDup_lookup; [exact Hnd| |].
      - rewrite list_lookup_fmap, Hi. simpl. unfold renamed.
        by rewrite lookup_singleton_eq.
      - rewrite list_lookup_fmap, Hj. simpl. unfold renamed.
        by rewrite lookup_singleton_ne. }
    congruence.
Qed.

Lemma rename_allows_duplicate_names_witness :
  exists operator out st',
    (forall check,
        rename check event_a_c (ArgDict {[ "a"%string := PStr "c" ]})
               ArgNone alloc_1
        = checked check operator (out, st')) /\
    Operator.outputs operator !! "event"%string = Some out /\
    ~ NoDup (Feature.name <$> Event.features out).
Proof.
  apply (rename_allows_duplicate_names event_a_c "a" "c" alloc_1).
  - done.
  - done.
  - simpl. by left.
  - simpl. right. by left.
Defined.

(** The entries of a dict with two keys: [values] and [keys] list them in
    some order. *)
Lemma map_to_list_pair (a b : string) (x y : pyvalue) :
  a <> b ->
  map_to_list ({[ a := x; b := y ]} : gmap string pyvalue)
  ≡ₚ [(a, x); (b, y)].
Proof.
  intros Hab. rewrite map_to_list_insert by (by apply lookup_singleton_ne).
  by rewrite map_to_list_singleton.
Qed.

Lemma swap_dict_accepted (a b : string) names dict_name :
  a <> b -> a <> ""%string -> b <> ""%string ->
  a ∈ names -> b ∈ names ->
  check_rename_dict {[ a := PStr b; b := PStr a ]} names dict_name
  = Ok {[ a := PStr b; b := PStr a ]}.
Proof.
  intros Hab Ha Hb Hain Hbin. apply check_rename_dict_accepts.
  unfold arg_defect, values, keys.
  pose proof (map_to_list_pair a b (PStr b) (PStr a) Hab) as Hp.
  intros [Hdup|[(v & Hv & Hbad)|(k & Hk & Hnin)]].
  - apply Hdup. rewrite Hp. simpl. apply NoDup_cons. split.
    + intros Hin%list_elem_of_singleton. congruence.
    + apply NoDup_singleton.
  - rewrite Hp in Hv. simpl in Hv.
    apply elem_of_cons in Hv as [->|Hv%list_elem_of_singleton].
    + destruct Hbad as [?|?]; [done|congruence].
    + subst v. destruct Hbad as [?|?]; [done|congruence].
  - rewrite Hp in Hk. simpl in Hk.
    apply elem_of_cons in Hk as [->|Hk%list_elem_of_singleton]; [done|].
    by subst k.
Qed.

(** X7. A features map is applied to every name at once: on a node that
    has the features [a] and [b], the map [{a: b, b: a}] passes the
    validation and the output node has the two names exchanged; the same
    rename on that node passes the validation too and its output has the
    feature names of the original node.  Each call returns its output if
    [self.check()] returns, and raises the exception of the check
    otherwise. *)
Theorem rename_swap event (a b : string) st :
  a <> b -> a <> ""%string -> b <> ""%string ->
  a ∈ Feature.name <$> Event.features event ->
  b ∈ Feature.name <$> Event.features event ->
  exists op1 e1 st1 op2 e2 st2,
    (forall check,
        rename check event (ArgDict {[ a := PStr b; b := PStr a ]}) ArgNone
               st
        = checked check op1 (e1, st1)) /\
    Feature.name <$> Event.features e1
    = (fun n => if decide (n = a) then b
                else if decide (n = b) then a else n)
        <$> (Feature.name <$> Event.features event) /\
    (forall check,
        rename check e1 (ArgDict {[ a := PStr b; b := PStr a ]}) ArgNone st1
        = checked check op2 (e2, st2)) /\
    Feature.name <$> Event.features e2
    = Feature.name <$> Event.features event.
Proof.
  intros Hab Ha Hb Hain Hbin.
  set (d := ({[ a := PStr b; b := PStr a ]} : gmap string pyvalue)).
  assert (Hren : forall n,
             renamed d n = if decide (n = a) then b
                           else if decide (n = b) then a else n).
  { intros n. unfold renamed, d. destruct (decide (n = a)) as [->|Hna].
    - by rewrite lookup_insert_eq.
    - rewrite lookup_insert_ne by done.
      destruct (decide (n = b)) as [->|Hnb].
      + by rewrite lookup_singleton_eq.
      + by rewrite lookup_singleton_ne. }
  set (e1 := wired_output st event ArgNone d ∅).
  assert (Hn1 : Feature.name <$> Event.features e1
                = renamed d <$> (Feature.name <$> Event.features event))
    by apply names_wired_output.
  exists (wired st event ArgNone d ∅).1, e1, (wired st event ArgNone d ∅).2,
         (wired (wired st event ArgNone d ∅).2 e1 ArgNone d ∅).1,
         (wired_output (wired st event ArgNone d ∅).2 e1 ArgNone d ∅),
         (wired (wired st event ArgNone d ∅).2 e1 ArgNone d ∅).2.
  split; [|split; [|split]].
  - intros check. apply rename_checked; [|done]. simpl.
    by apply swap_dict_accepted.
  - rewrite Hn1. apply list_fmap_ext. intros i n _. apply Hren.
  - intros check. apply rename_checked; [|done].
    change (features_dict e1 (ArgDict d))
      with (check_rename_dict d (Feature.name <$> Event.features e1)
                              "features").
    apply swap_dict_accepted; try done; rewrite Hn1.
    + apply list_elem_of_fmap. exists b. split; [|done].
      rewrite Hren. destruct (decide (b = a)); [congruence|].
      by destruct (decide (b = b)).
    + apply list_elem_of_fmap. exists a. split; [|done].
      rewrite Hren. by destruct (decide (a = a)).
  - rewrite names_wired_output, Hn1, <- list_fmap_compose.
    rewrite <- (list_fmap_id (Feature.name <$> Event.features event)) at 2.
    apply list_fmap_ext. intros i n _. simpl. rewrite !Hren.
    repeat (destruct (decide _)); congruence.
Qed.

Lemma rename_swap_witness :
  exists op1 e1 st1 op2 e2 st2,
    (forall check,
        rename check event_a_c
               (ArgDict {[ "a"%string := PStr "c"; "c"%string := PStr "a" ]})
               ArgNone alloc_1
        = checked check op1 (e1, st1)) /\
    Feature.name <$> Event.features e1
    = (fun n => if decide (n = "a"%string) then "c"%string
                else if decide (n = "c"%string) then "a"%string else n)
        <$> (Feature.name <$> Event.features event_a_c) /\
    (forall check,
        rename check e1
               (ArgDict {[ "a"%string := PStr "c"; "c"%string := PStr "a" ]})
               ArgNone st1
        = checked check op2 (e2, st2)) /\
    Feature.name <$> Event.features e2
    = Feature.name <$> Event.features event_a_c.
Proof.
  apply (rename_swap event_a_c "a" "c" alloc_1).
  - done.
  - done.
  - done.
  - simpl. by left.
  - simpl. right. by left.
Defined.

(** X8. A rename without names to change (each argument [None] or an
    empty dict) passes the validation and wires a node with the feature
    names, the dtypes and the sampling object of its input, building no
    sampling; the call returns this node if [self.check()] returns, and
    raises the exception of the check otherwise. *)
Theorem rename_nothing event features index st :
  features = ArgNone \/ features = ArgDict ∅ ->
  index = ArgNone \/ index = ArgDict ∅ ->
  exists operator out st',
    (forall check,
        rename check event features index st
        = checked check operator (out, st')) /\
    Operator.outputs operator !! "event"%string = Some out /\
    Feature.name <$> Event.features out
    = Feature.name <$> Event.features event /\
    Feature.dtype <$> Event.features out
    = Feature.dtype <$> Event.features event /\
    Event.sampling out = Event.sampling event /\
    next_sampling st' = next_sampling st.
Proof.
  intros Hf Hi.
  assert (Hempty : forall names dict_name,
             check_rename_dict ∅ names dict_name = Ok ∅).
  { intros names dict_name. apply check_rename_dict_accepts.
    unfold arg_defect, values, keys. rewrite map_to_list_empty. simpl.
    intros [Hdup|[(v & Hv & _)|(k & Hk & _)]].
    - apply Hdup. constructor.
    - by apply elem_of_nil in Hv.
    - by apply elem_of_nil in Hk. }
  assert (Hfd : features_dict event features = Ok ∅)
    by (destruct Hf as [->| ->]; [done|apply Hempty]).
  assert (Hid : index_dict (Event.index_names event) index = Ok ∅)
    by (destruct Hi as [->| ->]; [done|apply Hempty]).
  assert (Hfalsy : arg_truthy index = false)
    by (destruct Hi as [->| ->]; done).
  eexists _, _, _. split; [intros check; by apply rename_checked|].
  split; [apply wired_outputs|].
  unfold wired, wired_output, output_features. rewrite Hfalsy. simpl.
  rewrite <- !list_fmap_compose. by repeat split.
Qed.

Lemma rename_nothing_witness :
  exists operator out st',
    (forall check,
        rename check event_a_c (ArgDict ∅) ArgNone alloc_1
        = checked check operator (out, st')) /\
    Operator.outputs operator !! "event"%string = Some out /\
    Feature.name <$> Event.features out
    = Feature.name <$> Event.features event_a_c /\
    Feature.dtype <$> Event.features out
    = Feature.dtype <$> Event.features event_a_c /\
    Event.sampling out = Event.sampling event_a_c /\
    next_sampling st' = next_sampling alloc_1.
Proof.
  apply (rename_nothing event_a_c (ArgDict ∅) ArgNone alloc_1).
  - by right.
  - by left.
Defined.

(** X9. The single-string form of [features] renames the only feature of
    a node.  Whatever the index argument and the check are: on a node with
    another number of features the constructor raises the [ValueError]
    that tells this number; on a node with one feature an empty new name
    raises the [ValueError] about the empty string; and a call that
    returns was made on a node with one feature and returns a node with
    that one feature, under the new name and with its dtype.  On a node
    with one feature, with a non-empty new name and an index argument that
    passes the validation, the call returns this node if [self.check()]
    returns, and raises the exception of the check otherwise. *)
Theorem rename_single_string check event (s : string) index st :
  (length (Event.features event) <> 1%nat ->
   rename check event (ArgStr s) index st
   = Raise (ValueError
              ("Expected event to have only one feature when passed a"
               +:+ " single string. Got "
               +:+ pretty (length (Event.features event))
               +:+ " features" +:+ " instead."))) /\
  (length (Event.features event) = 1%nat -> s = ""%string ->
   rename check event (ArgStr s) index st
   = Raise (ValueError "Expected feature to be a non-empty string.")) /\
  (forall out st',
      rename check event (ArgStr s) index st = Ok (out, st') ->
      exists f,
        Event.features event = [f] /\
        Feature.name <$> Event.features out = [s] /\
        Feature.dtype <$> Event.features out = [Feature.dtype f]) /\
  (forall f self_index,
      Event.features event = [f] -> s <> ""%string ->
      index_dict (Event.index_names event) index = Ok self_index ->
      rename check event (ArgStr s) index st
      = checked check
          (wired st event index {[ Feature.name f := PStr s ]} self_index).1
          (wired_output st event index {[ Feature.name f := PStr s ]}
                        self_index,
           (wired st event index {[ Feature.name f := PStr s ]}
                  self_index).2)).
Proof.
  assert (Hone : forall f,
             Event.features event = [f] -> s <> ""%string ->
             features_dict event (ArgStr s)
             = Ok {[ Feature.name f := PStr s ]}).
  { intros f Hf Hs. simpl. rewrite Hf. simpl.
    by rewrite (bool_decide_eq_false_2 _ Hs). }
  split; [|split; [|split]].
  - intros Hlen. rewrite rename_unfold, RenameOperator_init_unfold. simpl.
    destruct (Nat.eqb_spec (length (Event.features event)) 1); done.
  - intros Hlen ->. rewrite rename_unfold, RenameOperator_init_unfold.
    simpl. by rewrite Hlen.
  - intros out st'. rewrite rename_unfold, RenameOperator_init_unfold.
    destruct (features_dict event (ArgStr s)) as [sf|e] eqn:Hfd; [|done].
    destruct (index_dict _ index) as [si|e]; [|done].
    destruct (check _) as [[]|e]; [|done].
    rewrite (surjective_pairing (wired st event index sf si)).
    rewrite wired_outputs. intros [= <- _].
    assert (exists f, Event.features event = [f]
                      /\ sf = {[ Feature.name f := PStr s ]})
      as (f & Hf & ->).
    { simpl in Hfd. destruct (Event.features event) as [|f [|f' fs]];
        simpl in Hfd; try done.
      destruct (negb _); [done|]. injection Hfd as <-. by exists f. }
    exists f. split; [done|].
    unfold wired_output, output_features. simpl. rewrite Hf. simpl.
    unfold renamed. by rewrite lookup_singleton_eq.
  - intros f si Hf Hs Hid. apply rename_checked; [by apply Hone|done].
Qed.

Lemma rename_single_string_witness :
  rename (fun _ => Ok tt) Nodes.event_a (ArgStr "b") ArgNone alloc_1
  = checked (fun _ => Ok tt)
      (wired alloc_1 Nodes.event_a ArgNone {[ "a"%string := PStr "b" ]} ∅).1
      (wired_output alloc_1 Nodes.event_a ArgNone
                    {[ "a"%string := PStr "b" ]} ∅,
       (wired alloc_1 Nodes.event_a ArgNone
              {[ "a"%string := PStr "b" ]} ∅).2).
Proof.
  apply (proj2 (proj2 (proj2
           (rename_single_string (fun _ => Ok tt) Nodes.event_a "b" ArgNone
                                 alloc_1)))
           (Feature.mk "a" FLOAT64 sampling_user None) ∅).
  - done.
  - done.
  - done.
Defined.

(** The index levels a rename of the index [a] to [b] and back leaves. *)
Lemma levels_round_trip (a b : string) (levels : list IndexLevel.t) :
  b ∉ IndexLevel.name <$> levels ->
  (fun level =>
     IndexLevel.mk (renamed {[ b := PStr a ]} (IndexLevel.name level))
                   (IndexLevel.dtype level))
    <$> ((fun level =>
            IndexLevel.mk (renamed {[ a := PStr b ]} (IndexLevel.name level))
                          (IndexLevel.dtype level))
           <$> levels)
  = levels.
Proof.
  intros Hb. rewrite <- list_fmap_compose.
  rewrite <- (list_fmap_id levels) at 2.
  apply list_fmap_ext. intros i [n dt] Hi. simpl. f_equal. unfold renamed.
  destruct (decide (n = a)) as [->|Hna].
  - rewrite lookup_singleton_eq. simpl. by rewrite lookup_singleton_eq.
  - rewrite (lookup_singleton_ne a n) by congruence.
    rewrite lookup_singleton_ne; [done|]. intros ->. apply Hb.
    apply list_elem_of_fmap. exists (IndexLevel.mk n dt). split; [done|].
    by eapply list_elem_of_lookup_2.
Qed.

(** X10. Renaming the index level [a] to [b] and then [b] back to [a]
    passes the validation both times and wires a node whose sampling has
    the index levels and the timestamp flag of the original sampling but
    is a new object: two samplings are built, and the final one is neither
    the original nor the intermediate one.  Each call returns its output
    if [self.check()] returns, and raises the exception of the check
    otherwise. *)
Theorem rename_index_round_trip event (a b : string) st :
  a <> ""%string -> b <> ""%string ->
  a ∈ Event.index_names event ->
  b ∉ Event.index_names event ->
  (Sampling.id (Event.sampling event) < next_sampling st)%nat ->
  exists op1 e1 st1 op2 e2 st2,
    (forall check,
        rename check event ArgNone (ArgDict {[ a := PStr b ]}) st
        = checked check op1 (e1, st1)) /\
    (forall check,
        rename check e1 ArgNone (ArgDict {[ b := PStr a ]}) st1
        = checked check op2 (e2, st2)) /\
    Sampling.index_levels (Event.sampling e2)
    = Sampling.index_levels (Event.sampling event) /\
    Sampling.is_unix_timestamp (Event.sampling e2)
    = Sampling.is_unix_timestamp (Event.sampling event) /\
    next_sampling st2 = S (S (next_sampling st)) /\
    Sampling.id (Event.sampling e2) <> Sampling.id (Event.sampling event) /\
    Sampling.id (Event.sampling e2) <> Sampling.id (Event.sampling e1).
Proof.
  intros Ha Hb Hain Hbnin Hid.
  set (d1 := ({[ a := PStr b ]} : gmap string pyvalue)).
  set (d2 := ({[ b := PStr a ]} : gmap string pyvalue)).
  assert (Ht1 : arg_truthy (ArgDict d1) = true).
  { simpl. apply negb_true_iff, bool_decide_eq_false_2.
    intros Hd. apply (f_equal (fun m => m !! a)) in Hd.
    unfold d1 in Hd. by rewrite lookup_singleton_eq, lookup_empty in Hd. }
  assert (Ht2 : arg_truthy (ArgDict d2) = true).
  { simpl. apply negb_true_iff, bool_decide_eq_false_2.
    intros Hd. apply (f_equal (fun m => m !! b)) in Hd.
    unfold d2 in Hd. by rewrite lookup_singleton_eq, lookup_empty in Hd. }
  set (e1 := wired_output st event (ArgDict d1) ∅ d1).
  set (st1 := (wired st event (ArgDict d1) ∅ d1).2).
  assert (Hnames1 : Event.index_names e1
                    = renamed d1 <$> Event.index_names event).
  { unfold e1, wired_output, Event.index_names. rewrite Ht1. simpl.
    by rewrite <- !list_fmap_compose. }
  exists (wired st event (ArgDict d1) ∅ d1).1, e1, st1,
         (wired st1 e1 (ArgDict d2) ∅ d2).1,
         (wired_output st1 e1 (ArgDict d2) ∅ d2),
         (wired st1 e1 (ArgDict d2) ∅ d2).2.
  split; [|split].
  - intros check. apply rename_checked; [done|]. simpl.
    by apply check_rename_dict_singleton.
  - intros check. apply rename_checked; [done|].
    change (index_dict (Event.index_names e1) (ArgDict d2))
      with (check_rename_dict d2 (Event.index_names e1) "index").
    apply check_rename_dict_singleton; [done|]. rewrite Hnames1.
    apply list_elem_of_fmap. exists a. split; [|done].
    unfold renamed, d1. by rewrite lookup_singleton_eq.
  - unfold wired, wired_output, st1, e1, wired, wired_output.
    rewrite !Ht1, !Ht2. simpl.
    split; [by apply levels_round_trip|]. repeat split; lia.
Qed.

Lemma rename_index_round_trip_witness :
  exists op1 e1 st1 op2 e2 st2,
    (forall check,
        rename check event_a_c ArgNone
               (ArgDict {[ "user"%string := PStr "uid" ]}) alloc_1
        = checked check op1 (e1, st1)) /\
    (forall check,
        rename check e1 ArgNone
               (ArgDict {[ "uid"%string := PStr "user" ]}) st1
        = checked check op2 (e2, st2)) /\
    Sampling.index_levels (Event.sampling e2)
    = Sampling.index_levels (Event.sampling event_a_c) /\
    Sampling.is_unix_timestamp (Event.sampling e2)
    = Sampling.is_unix_timestamp (Event.sampling event_a_c) /\
    next_sampling st2 = S (S (next_sampling alloc_1)) /\
    Sampling.id (Event.sampling e2)
    <> Sampling.id (Event.sampling event_a_c) /\
    Sampling.id (Event.sampling e2) <> Sampling.id (Event.sampling e1).
Proof.
  apply (rename_index_round_trip event_a_c "user" "uid" alloc_1).
  - done.
  - done.
  - simpl. by left.
  - simpl. intros Hin%list_elem_of_singleton. done.
  - simpl. lia.
Defined.

(** X11. The operator a rename builds has exactly the inputs, outputs and
    attributes its descriptor [build_op_definition] declares: the input
    and the output ["event"], the first being the renamed node, and the
    two map attributes ["features"] and ["index"]. *)
Theorem rename_wiring_matches_descriptor check event features index st op
        st' :
  RenameOperator_init check event features index st = Ok (op, st') ->
  (forall key, is_Some (Operator.inputs op !! key)
               <-> key ∈ OperatorDef.inputs build_op_definition) /\
  (forall key, is_Some (Operator.outputs op !! key)
               <-> key ∈ OperatorDef.outputs build_op_definition) /\
  (forall key, is_Some (Operator.attributes op !! key)
               <-> key ∈ (OperatorDef.attributes build_op_definition).*1.*1) /\
  (forall key a, Operator.attributes op !! key = Some a ->
                 attribute_has_type a MAP_STR_STR = true) /\
  Operator.inputs op !! "event"%string = Some event /\
  Operator.id op = next_operator st /\
  next_operator st' = S (next_operator st).
Proof.
  rewrite RenameOperator_init_unfold.
  destruct (features_dict event features) as [sf|e]; [|done].
  destruct (index_dict _ index) as [si|e]; [|done].
  destruct (check _) as [[]|e]; [|done].
  intros [= <- <-]. unfold wired. simpl.
  split; [|split; [|split; [|split]]].
  - intros key. rewrite list_elem_of_singleton.
    destruct (decide (key = "event"%string)) as [->|Hne].
    + rewrite lookup_singleton_eq. split; [done|by eexists].
    + rewrite lookup_singleton_ne by done. split; [by intros [? ?]|done].
  - intros key. rewrite list_elem_of_singleton.
    destruct (decide (key = "event"%string)) as [->|Hne].
    + rewrite lookup_singleton_eq. split; [done|by eexists].
    + rewrite lookup_singleton_ne by done. split; [by intros [? ?]|done].
  - intros key. rewrite elem_of_cons, list_elem_of_singleton.
    destruct (decide (key = "index"%string)) as [->|Hni].
    + rewrite lookup_insert_eq. split; [by right|by eexists].
    + rewrite lookup_insert_ne by done.
      destruct (decide (key = "features"%string)) as [->|Hnf].
      * rewrite lookup_singleton_eq. split; [by left|by eexists].
      * rewrite lookup_singleton_ne by done.
        split; [by intros [? ?]|]. intros [?|?]; done.
  - intros key a0.
    destruct (decide (key = "index"%string)) as [->|Hni].
    + rewrite lookup_insert_eq. by intros [= <-].
    + rewrite lookup_insert_ne by done.
      destruct (decide (key = "features"%string)) as [->|Hnf].
      * rewrite lookup_singleton_eq. by intros [= <-].
      * by rewrite lookup_singleton_ne.
  - by rewrite lookup_singleton_eq.
Qed.

Lemma rename_wiring_matches_descriptor_witness :
  Operator.inputs (wired alloc_1 event_a_c ArgNone ∅ ∅).1 !! "event"%string
  = Some event_a_c.
Proof.
  apply (rename_wiring_matches_descriptor (fun _ => Ok tt) event_a_c
           ArgNone ArgNone alloc_1 _ (wired alloc_1 event_a_c ArgNone ∅ ∅).2).
  vm_compute. reflexivity.
Defined.

End RenameExtra.

(** ** Calendar operators: wiring and composition *)

Module CalendarExtra.
Import Py Core Calendar.

Lemma BaseCalendarOperator_init_unfold check output_feature_name sampling st :
  BaseCalendarOperator_init check output_feature_name sampling st =
    match check (CalendarWiring.wired output_feature_name sampling st) with
    | Ok _ =>
        Ok (CalendarWiring.wired output_feature_name sampling st,
            mkAlloc (S (next_operator st)) (next_sampling st))
    | Raise e => Raise e
    end.
Proof.
  unfold BaseCalendarOperator_init, CalendarWiring.wired, mbind, M_bind,
    Operator_init, lift, mret, M_ret. simpl.
  unfold Operator.add_output, Operator.add_input. simpl.
  rewrite !insert_empty. by destruct (check _) as [[]|e].
Qed.

(** X12. The operator a calendar constructor builds has exactly the input
    ["sampling"] and the output ["event"] its descriptor declares, and no
    attribute, as the descriptor declares none; the input is the node it
    was given, and the operator is the creator of the output node and of
    its feature. *)
Theorem calendar_wiring_matches_descriptor check operator_def_key
        output_feature_name sampling st op st' :
  BaseCalendarOperator_init check output_feature_name sampling st
  = Ok (op, st') ->
  (forall key,
      is_Some (Operator.inputs op !! key)
      <-> key ∈ OperatorDef.inputs (build_op_definition operator_def_key)) /\
  (forall key,
      is_Some (Operator.outputs op !! key)
      <-> key ∈ OperatorDef.outputs (build_op_definition operator_def_key)) /\
  Operator.attributes op = ∅ /\
  OperatorDef.attributes (build_op_definition operator_def_key) = [] /\
  Operator.inputs op !! "sampling"%string = Some sampling /\
  (forall out, Operator.outputs op !! "event"%string = Some out ->
               Event.creator out = Some (Operator.id op) /\
               Forall (fun f => Feature.creator f = Some (Operator.id op))
                      (Event.features out)).
Proof.
  rewrite BaseCalendarOperator_init_unfold.
  destruct (check _) as [[]|e]; [|done]. intros [= <- <-].
  unfold CalendarWiring.wired. simpl.
  split; [|split; [|split; [|split; [|split]]]]; try done.
  - intros key. rewrite list_elem_of_singleton.
    destruct (decide (key = "sampling"%string)) as [->|Hne].
    + rewrite lookup_singleton_eq. split; [done|by eexists].
    + rewrite lookup_singleton_ne by done. split; [by intros [? ?]|done].
  - intros key. rewrite list_elem_of_singleton.
    destruct (decide (key = "event"%string)) as [->|Hne].
    + rewrite lookup_singleton_eq. split; [done|by eexists].
    + rewrite lookup_singleton_ne by done. split; [by intros [? ?]|done].
  - intros out. rewrite lookup_singleton_eq. intros [= <-]. simpl.
    split; [done|]. by repeat constructor.
Qed.

Lemma calendar_wiring_matches_descriptor_witness :
  Operator.inputs
    (CalendarWiring.wired "calendar_hour" Nodes.event_a (mkAlloc 0 1))
    !! "sampling"%string
  = Some Nodes.event_a.
Proof.
  apply (calendar_wiring_matches_descriptor (fun _ => Ok tt)
           "CALENDAR_HOUR" "calendar_hour" Nodes.event_a (mkAlloc 0 1) _
           (mkAlloc 1 1)).
  vm_compute. reflexivity.
Defined.

(** X13. The output of a calendar operator depends on its input node
    through the sampling of the node only: on two nodes with the same
    sampling object, whatever their features, the constructor builds the
    same output node. *)
Theorem calendar_reads_sampling_only check output_feature_name node1 node2
        st op1 st1 op2 st2 :
  Event.sampling node1 = Event.sampling node2 ->
  BaseCalendarOperator_init check output_feature_name node1 st
  = Ok (op1, st1) ->
  BaseCalendarOperator_init check output_feature_name node2 st
  = Ok (op2, st2) ->
  Operator.outputs op1 = Operator.outputs op2 /\ st1 = st2.
Proof.
  intros Hs. rewrite !BaseCalendarOperator_init_unfold.
  destruct (check _) as [[]|e]; [|done]. intros [= <- <-].
  destruct (check _) as [[]|e]; [|done]. intros [= <- <-].
  unfold CalendarWiring.wired. simpl. by rewrite Hs.
Qed.

Lemma calendar_reads_sampling_only_witness :
  Operator.outputs
    (CalendarWiring.wired "calendar_hour" Nodes.event_a (mkAlloc 0 1))
  = Operator.outputs
      (CalendarWiring.wired "calendar_hour" Rename.event_a_c (mkAlloc 0 1)).
Proof.
  apply (calendar_reads_sampling_only (fun _ => Ok tt) "calendar_hour"
           Nodes.event_a Rename.event_a_c (mkAlloc 0 1) _ (mkAlloc 1 1) _
           (mkAlloc 1 1)).
  - reflexivity.
  - vm_compute. reflexivity.
  - vm_compute. reflexivity.
Defined.



End CalendarExtra.

(** ** Equality of binary64 floats *)

Module FloatEq.



End FloatEq.

(** ** The tabular boundary: groups, errors and ties *)

Module TabularExtra.
Import Py Tabular TabularViews TabularFacts.

(** *** Loops that return *)

Lemma for_each_Ok_inv {A S} (body : S -> A -> result S) (P : S -> Prop)
      (Q : A -> Prop) (xs : list A) (s out : S) :
  (forall s x s', x ∈ xs -> P s -> body s x = Ok s' -> P s' /\ Q x) ->
  P s -> for_each body xs s = Ok out -> P out /\ Forall Q xs.
Proof.
  revert s. induction xs as [|x xs IH]; intros s Hstep Hs; simpl.
  - intros [= <-]. by split.
  - destruct (body s x) as [s'|e] eqn:Hb; [|done]. simpl. intros Hrun.
    destruct (Hstep s x s') as [Hs' Hx]; [by left|done|done|].
    assert (Htail : forall s0 x0 s0',
               x0 ∈ xs -> P s0 -> body s0 x0 = Ok s0' -> P s0' /\ Q x0).
    { intros s0 x0 s0' Hin. apply Hstep. by right. }
    destruct (IH s' Htail Hs' Hrun) as [Hout Hxs].
    split; [done|by constructor].
Qed.

Lemma for_each_length {A B} (body : list B -> A -> result (list B))
      (w : A -> nat) (xs : list A) (s out : list B) :
  (forall s x s', body s x = Ok s' -> (length s' <= length s + w x)%nat) ->
  for_each body xs s = Ok out ->
  (length out <= length s + sum_list (w <$> xs))%nat.
Proof.
  intros Hstep. revert s. induction xs as [|x xs IH]; intros s; simpl.
  - intros [= <-]. lia.
  - destruct (body s x) as [s'|e] eqn:Hb; [|done]. simpl. intros Hrun.
    apply Hstep in Hb. apply IH in Hrun.
    change (list_fmap A nat w xs) with (w <$> xs). lia.
Qed.

(** *** Assignments by label *)

Lemma loc_set_length (acc : list Row) index timestamp cells :
  length (loc_set acc index timestamp cells)
  = if existsb (same_label index timestamp) acc then length acc
    else S (length acc).
Proof.
  unfold loc_set. destruct (existsb _ _).
  - by rewrite length_fmap.
  - rewrite length_app. simpl. lia.
Qed.





(** *** The loops of [event_to_dataframe] on the event of a frame *)





(** *** The groups of the grouped rows *)





(** *** The round trip *)







(** *** The event of a frame *)



(** *** Frames that [dataframe_to_event] rejects *)

Lemma NumpyFeature_init_raise column_name array e :
  NumpyFeature_init column_name array = Raise e ->
  exists msg, e = ValueError msg.
Proof.
  destruct array as [dtype elements|]; simpl.
  - destruct (in_DTYPE_MAPPING dtype); [done|]. intros [= <-]. by eexists.
  - intros [= <-]. by eexists.
Qed.

(** A column the loop over the columns stops at: its name is the name of
    another column, or its dtype is not supported. *)
Local Abbreviation column_bad df :=
  (fun item : nat * string =>
     length (filter (fun c => c = item.2) (columns df)) <> 1%nat
     \/ in_DTYPE_MAPPING (dtype_of (column_to_numpy item.1 (rows df)))
        = false).







(** *** [event_to_dataframe] on any event *)

Lemma cells_at_Ok (i : nat) (features : list NumpyFeature)
      (cells : list scalar) :
  cells_at i features = Ok cells ->
  length cells = length features /\
  Forall (fun f => (i < length (data f))%nat) features.
Proof.
  revert cells. induction features as [|f features IH]; intros cells; simpl.
  - intros [= <-]. by split.
  - destruct (data f !! i) as [v|] eqn:Hv; [|done].
    change (?a ≫= ?g) with (bind a g).
    destruct (cells_at i features) as [cells'|e]; [|done]. simpl.
    intros [= <-]. destruct (IH cells' eq_refl) as [Hlen Hall]. split.
    + simpl. by rewrite Hlen.
    + constructor; [|done]. by eapply lookup_lt_Some.
Qed.

Lemma timestamp_body_Ok df_features index features (acc out : list Row)
      (i : nat) (timestamp : float) :
  timestamp_body df_features index features acc (i, timestamp) = Ok out ->
  exists cells,
    cells_at i features = Ok cells /\
    length cells = length df_features /\
    out = loc_set acc index timestamp cells.
Proof.
  unfold timestamp_body. change (?a ≫= ?g) with (bind a g).
  destruct (cells_at i features) as [cells|e]; [|done]. simpl.
  destruct (decide (length cells = length df_features)) as [Hlen|Hlen].
  - rewrite (bool_decide_eq_true_2 _ Hlen). intros [= <-]. by exists cells.
  - by rewrite (bool_decide_eq_false_2 _ Hlen).
Qed.

Lemma loc_set_Forall (P : Row -> Prop) (acc : list Row) index timestamp
      cells :
  Forall P acc ->
  (forall r, P r -> P (mkRow (row_index r) (row_timestamp r) cells)) ->
  P (mkRow index timestamp cells) ->
  Forall P (loc_set acc index timestamp cells).
Proof.
  intros Hacc Hupd Hnew. unfold loc_set. destruct (existsb _ _).
  - apply Forall_fmap. eapply Forall_impl; [exact Hacc|].
    intros r Hr. simpl. destruct (same_label _ _ r); auto.
  - apply Forall_app. split; [done|]. by constructor.
Qed.

(** A row of the frame under construction: one cell per column, and the
    index value of a group of the event. *)
Local Abbreviation row_of event := (fun r : Row =>
  length (row_cells r) = length (feature_names event)
  /\ row_index r ∈ (event_data event).*1).

Lemma timestamp_loop_returns event index features
      (items : list (nat * float)) (acc out : list Row) :
  index ∈ (event_data event).*1 ->
  Forall (row_of event) acc ->
  for_each (timestamp_body (feature_names event) index features) items acc
  = Ok out ->
  Forall (row_of event) out /\
  Forall (fun item : nat * float =>
            Forall (fun f => (item.1 < length (data f))%nat) features) items.
Proof.
  intros Hindex Hacc Hrun.
  apply (for_each_Ok_inv
           (timestamp_body (feature_names event) index features)
           (Forall (row_of event))
           (fun item : nat * float =>
              Forall (fun f => (item.1 < length (data f))%nat) features)
           items acc out); [|done|done].
  intros s [i t] s' _ Hs Hbody.
  apply timestamp_body_Ok in Hbody as (cells & Hcells & Hlen & ->).
  apply cells_at_Ok in Hcells as [_ Hbound]. split; [|done].
  apply loc_set_Forall; [done| |done]. by intros r [_ Hr].
Qed.

Lemma timestamp_loop_length df_features index features
      (items : list (nat * float)) (acc out : list Row) :
  for_each (timestamp_body df_features index features) items acc = Ok out ->
  (length out <= length acc + length items)%nat.
Proof.
  intros Hrun.
  pose proof (for_each_length (timestamp_body df_features index features)
                (fun _ => 1%nat) items acc out) as Hlen.
  replace (sum_list ((fun _ => 1%nat) <$> items)) with (length items)
    in Hlen.
  - apply Hlen; [|done]. intros s [i t] s' Hbody.
    apply timestamp_body_Ok in Hbody as (cells & _ & _ & ->).
    rewrite loc_set_length. destruct (existsb _ _); lia.
  - clear. induction items as [|x items IH]; [done|].
    rewrite fmap_cons. simpl. by rewrite <- IH.
Qed.

(** What a group of the data needs for the loops to pass it. *)
Local Abbreviation group_ok event :=
  (fun item : index_key * list NumpyFeature =>
     exists timestamps,
       odict_get item.1 (sampling_data (sampling event)) = Some timestamps /\
       Forall (fun f => (length timestamps <= length (data f))%nat) item.2).

Lemma index_body_Ok event (acc out : list Row)
      (item : index_key * list NumpyFeature) :
  item.1 ∈ (event_data event).*1 ->
  Forall (row_of event) acc ->
  index_body event acc item = Ok out ->
  Forall (row_of event) out /\ group_ok event item.
Proof.
  destruct item as [index features]. simpl. intros Hindex Hacc.
  destruct (odict_get index _) as [timestamps|]; [|done]. intros Hrun.
  apply timestamp_loop_returns in Hrun as (Hout & Hitems); [|done|done].
  split; [done|]. exists timestamps. split; [done|].
  apply Forall_forall. intros f Hf.
  destruct (decide (timestamps = [])) as [->|Hne]; [simpl; lia|].
  destruct (lookup_lt_is_Some_2 timestamps (pred (length timestamps)))
    as [t Ht].
  { destruct timestamps; [done|]. simpl. lia. }
  rewrite Forall_forall in Hitems.
  specialize (Hitems (pred (length timestamps), t)).
  rewrite Forall_forall in Hitems. simpl in Hitems.
  assert ((pred (length timestamps) < length (data f))%nat); [|lia].
  apply Hitems; [|done]. apply elem_of_lookup_imap. by eexists _, _.
Qed.

Lemma index_body_length event (acc : list Row)
      (item : index_key * list NumpyFeature) (out : list Row) :
  index_body event acc item = Ok out ->
  (length out
   <= length acc
      + length (default [] (odict_get item.1
                              (sampling_data (sampling event)))))%nat.
Proof.
  destruct item as [index features]. simpl.
  destruct (odict_get index _) as [timestamps|]; [|done]. intros Hrun.
  apply timestamp_loop_length in Hrun. by rewrite length_imap in Hrun.
Qed.

Lemma index_loop_returns event (rows : list Row) :
  for_each (index_body event) (event_data event) [] = Ok rows ->
  Forall (row_of event) rows /\
  Forall (group_ok event) (event_data event) /\
  (length rows <= timestamp_count event)%nat.
Proof.
  intros Hrun.
  destruct (for_each_Ok_inv (index_body event) (Forall (row_of event))
              (group_ok event) (event_data event) [] rows)
    as [Hout Hitems]; [|done|done|].
  - intros s item s' Hin Hs Hbody.
    apply index_body_Ok in Hbody; [done| |done].
    apply list_elem_of_fmap. by exists item.
  - split; [done|]. split; [done|].
    unfold timestamp_count.
    apply (for_each_length (index_body event) _ _ _ _
             (index_body_length event) Hrun).
Qed.

(** X19. [event_to_dataframe] returns a frame only for an event with at
    least one group in which the sampling has timestamps for the index
    value of every group of the data and every feature buffer is at least
    as long as the timestamps of its group; the buffers of the first group
    are not empty. *)
Theorem event_to_dataframe_requires event df :
  event_to_dataframe event = Ok df ->
  event_data event <> [] /\
  (forall k features,
      (k, features) ∈ event_data event ->
      exists timestamps,
        odict_get k (sampling_data (sampling event)) = Some timestamps /\
        Forall (fun f => (length timestamps <= length (data f))%nat)
               features) /\
  (forall k features rest,
      event_data event = (k, features) :: rest ->
      Forall (fun f => data f <> []) features).
Proof.
  unfold event_to_dataframe. change (?a ≫= ?g) with (bind a g).
  destruct (for_each _ _ _) as [rows|e] eqn:Hrun; [|done]. simpl.
  apply index_loop_returns in Hrun as (_ & Hgroups & _).
  destruct (event_data event) as [|[k0 first_features] rest] eqn:Hdata;
    [done|].
  destruct (forallb _ first_features) eqn:Hfirst; [|done]. intros _.
  split; [done|]. split.
  - intros k features Hin. rewrite Forall_forall in Hgroups.
    apply (Hgroups (k, features) Hin).
  - intros k features rest' [= <- <- <-].
    apply Forall_forall. intros f Hf. rewrite forallb_forall in Hfirst.
    eapply bool_decide_eq_true_1, Hfirst. by apply list_elem_of_In.
Qed.

(** X20. The frame [event_to_dataframe] returns has the index names of the
    sampling and the feature names of the event as columns; every row has
    one cell per column and the index value of a group of the data, and
    there are at most as many rows as the sampling has timestamps for the
    groups of the data. *)
Theorem event_to_dataframe_frame event df :
  event_to_dataframe event = Ok df ->
  index_names df = names (sampling event) /\
  columns df = feature_names event /\
  Forall (fun r => length (row_cells r) = length (columns df)
                   /\ row_index r ∈ (event_data event).*1) (rows df) /\
  (length (rows df) <= timestamp_count event)%nat.
Proof.
  unfold event_to_dataframe. change (?a ≫= ?g) with (bind a g).
  destruct (for_each _ _ _) as [rows|e] eqn:Hrun; [|done]. simpl.
  apply index_loop_returns in Hrun as (Hrows & _ & Hlen).
  destruct (event_data event) as [|[k0 first_features] rest] eqn:Hdata;
    [done|].
  destruct (forallb _ first_features); [|done]. by intros [= <-].
Qed.

Lemma event_to_dataframe_requires_witness :
  exists timestamps,
    odict_get [IInt 1] (sampling_data (sampling event_one_row))
    = Some timestamps /\
    Forall (fun f => (length timestamps <= length (data f))%nat)
           [mkNumpyFeature "a" [F64 5%float]].
Proof.
  destruct (event_to_dataframe_requires event_one_row frame_one_row)
    as (_ & Hgroups & _); [vm_compute; reflexivity|].
  apply (Hgroups [IInt 1] [mkNumpyFeature "a" [F64 5%float]]).
  simpl. by left.
Defined.

Lemma event_to_dataframe_frame_witness :
  index_names frame_one_row = names (sampling event_one_row) /\
  columns frame_one_row = feature_names event_one_row /\
  Forall (fun r => length (row_cells r) = length (columns frame_one_row)
                   /\ row_index r ∈ (event_data event_one_row).*1)
         (rows frame_one_row) /\
  (length (rows frame_one_row) <= timestamp_count event_one_row)%nat.
Proof.
  apply (event_to_dataframe_frame event_one_row frame_one_row).
  vm_compute. reflexivity.
Defined.

End TabularExtra.
